(** * UAV_MBSE: the structural mass-modelling engine

    A shallow embedding of [src/structures/structural_model.py]:
    rib placement by spanwise sampling ([SurfaceStructure.calculate_ribs]),
    configuration-driven construction ([initialize_structure],
    [StructuralModel.__init__]), the memoised centroid/area pair of a
    surface coating, and the mass-weighted aggregation of point masses
    ([SurfaceStructure.mass]).

    Numbers.  The program is embedded twice.  In the first part of the
    development numbers are canonical rationals [Qc] with exact
    arithmetic: this is the program as its algorithm reads, with
    rounding set aside, and it carries what does not depend on rounding
    (control flow, exceptions, construction, caching, the order of the
    elements).  Where NumPy leaves the finite numbers (a division by
    zero yields [inf] or [nan] and only warns) the result lives in
    [npfloat], which adds those three values.  The module [F64] embeds
    the numerical kernels again over IEEE 754 binary64, the numbers the
    program computes with; statements that depend on rounding, overflow
    or underflow are made there. *)

From Stdlib Require Import QArith Qcanon Qround.
From Stdlib Require SpecFloat.
From stdpp Require Import base numbers list sorting strings pretty gmap.

Local Open Scope Qc_scope.

(** ** Python exceptions and fallible computations *)

Module Py.

(** The built-in exceptions that the modelled code can raise. *)
Inductive exn : Type :=
| KeyError
| IndexError
| TypeError
| ValueError
| OverflowError.

#[global] Instance exn_eq_dec : EqDecision exn.
Proof. solve_decision. Defined.

(** A computation either returns a value or raises. *)
Inductive result (A : Type) : Type :=
| Ok (a : A)
| Raise (e : exn).
#[global] Arguments Ok {A} a.
#[global] Arguments Raise {A} e.

#[global] Instance result_eq_dec `{EqDecision A} : EqDecision (result A).
Proof. solve_decision. Defined.

#[global] Instance result_ret : MRet result := λ A a, Ok a.
#[global] Instance result_bind : MBind result := λ A B f m,
  match m with
  | Ok a => f a
  | Raise e => Raise e
  end.
#[global] Instance result_fmap : FMap result := λ A B f m,
  match m with
  | Ok a => Ok (f a)
  | Raise e => Raise e
  end.

Definition returns {A} (m : result A) : Prop := ∃ a, m = Ok a.
Definition raises {A} (m : result A) : Prop := ∃ e, m = Raise e.

(** A list comprehension whose body can raise: elements are evaluated
    left to right and the first exception aborts the whole list. *)
Fixpoint comprehension {A B} (f : A → result B) (l : list A)
  : result (list B) :=
  match l with
  | [] => Ok []
  | a :: l' =>
      b ← f a;
      bs ← comprehension f l';
      Ok (b :: bs)
  end.

(** [xs[i]] for a non-negative index. *)
Definition index {A} (xs : list A) (i : nat) : result A :=
  match xs !! i with
  | Some x => Ok x
  | None => Raise IndexError
  end.

(** [enumerate(xs)] *)
Definition enumerate {A} (xs : list A) : list (nat * A) :=
  zip (seq 0 (length xs)) xs.

End Py.
Import Py.

(** ** The NumPy operations used by the structural model *)

Module Np.

(** A [float64] value: a finite number, an infinity, or not-a-number. *)
Inductive npfloat : Type :=
| Finite (x : Qc)
| PInf
| NInf
| NaN.

#[global] Instance npfloat_eq_dec : EqDecision npfloat.
Proof. solve_decision. Defined.

(** [a[1:]] and [a[:-1]] *)
Definition slice_from_1 {A} (a : list A) : list A := drop 1 a.
Definition slice_to_last {A} (a : list A) : list A :=
  take (length a - 1) a.

(** [a - b] on arrays of one shape. *)
Definition subtract (a b : list Qc) : list Qc := zip_with Qcminus a b.

(** [x / y]: NumPy's true division warns on a zero divisor and returns
    [nan] for [0/0] and a signed infinity otherwise; it never raises. *)
Definition true_divide (x y : Qc) : npfloat :=
  if decide (y = 0) then
    if decide (x = 0) then NaN
    else if decide (0 < x) then PInf else NInf
  else Finite (x / y).

(** [np.ceil] *)
Definition ceil (x : npfloat) : npfloat :=
  match x with
  | Finite q => Finite (Qc_of_Z (Qceiling q))
  | other => other
  end.

(** [x + 1] for a [float64] [x] *)
Definition add1 (x : npfloat) : npfloat :=
  match x with
  | Finite q => Finite (q + 1)
  | other => other
  end.

(** Python's [int(x)] on a float: truncation towards zero;
    [OverflowError] on an infinity, [ValueError] on [nan]. *)
Definition int (x : npfloat) : result Z :=
  match x with
  | Finite q => Ok (Z.quot (Qnum q) (Z.pos (Qden q)))
  | PInf | NInf => Raise OverflowError
  | NaN => Raise ValueError
  end.

(** [np.arange(0, num)] as floats. *)
Definition arange (num : Z) : list Qc :=
  (λ i : nat, Qc_of_Z (Z.of_nat i)) <$> seq 0 (Z.to_nat num).

(** The samples [start + i * step] that [np.linspace] computes first;
    for a single sample the step is undefined and [delta] stands in. *)
Definition linspace_samples (start stop : Qc) (num : Z) : list Qc :=
  let div := (num - 1)%Z in
  let delta := stop - start in
  let y := arange num in
  let y :=
    if decide (0 < div)%Z then
      let step := delta / Qc_of_Z div in
      if decide (step = 0)
      then (λ i, i / Qc_of_Z div * delta) <$> y
      else (λ i, i * step) <$> y
    else (λ i, i * delta) <$> y in
  (λ v, v + start) <$> y.

(** [np.linspace(start, stop, num)] with the default [endpoint=True]:
    [num] samples, the last one overwritten with [stop] itself when
    there are at least two.  A negative [num] is a [ValueError]. *)
Definition linspace (start stop : Qc) (num : Z) : result (list Qc) :=
  if decide (num < 0)%Z then Raise ValueError
  else
    let y := linspace_samples start stop num in
    Ok (if decide (1 < num)%Z
        then <[ (length y - 1)%nat := stop ]> y
        else y).

(** [np.concatenate(arrays)]: at least one array is needed. *)
Definition concatenate (arrays : list (list Qc)) : result (list Qc) :=
  match arrays with
  | [] => Raise ValueError
  | _ => Ok (mjoin arrays)
  end.

(** [np.unique]: the distinct values in ascending order. *)
Definition unique (a : list Qc) : list Qc :=
  merge_sort Qcle (remove_dups a).

(** An array as far as its shape matters here: a zero-dimensional value
    or a one-dimensional array. *)
Inductive ndarray : Type :=
| Scalar (x : npfloat)
| Array1 (v : list npfloat).

#[global] Instance ndarray_eq_dec : EqDecision ndarray.
Proof. solve_decision. Defined.

End Np.

(** ** Rib positions: lines 187-197 of [calculate_ribs] *)

(** [n_ribs = np.ceil((wingspans[1:] - wingspans[:-1]) / max_spacing)] *)
Definition n_ribs (wingspans : list Qc) (max_spacing : Qc) : list Np.npfloat :=
  (λ d, Np.ceil (Np.true_divide d max_spacing))
    <$> Np.subtract (Np.slice_from_1 wingspans) (Np.slice_to_last wingspans).

(** The body of the comprehension building [section_ribs]. *)
Definition section_rib (wingspans : list Qc) (ix : nat * Np.npfloat)
  : result (list Qc) :=
  let '(i, n) := ix in
  start ← Py.index wingspans i;
  stop ← Py.index wingspans (i + 1);
  num ← Np.int (Np.add1 n);
  Np.linspace start stop num.

Definition section_ribs (wingspans : list Qc) (max_spacing : Qc)
  : result (list (list Qc)) :=
  Py.comprehension (section_rib wingspans)
    (Py.enumerate (n_ribs wingspans max_spacing)).

(** [rib_positions = np.unique(np.concatenate(section_ribs))] *)
Definition rib_positions (wingspans : list Qc) (max_spacing : Qc)
  : result (list Qc) :=
  sections ← section_ribs wingspans max_spacing;
  all ← Np.concatenate sections;
  Ok (Np.unique all).

(** The consecutive pairs of stations, and the samples of one pair: the
    view of [section_ribs] that the proofs use (see
    [section_ribs_intervals]). *)
Definition intervals (wingspans : list Qc) : list (Qc * Qc) :=
  zip wingspans (drop 1 wingspans).

Definition interval_samples (max_spacing : Qc) (ab : Qc * Qc)
  : result (list Qc) :=
  num ← Np.int (Np.add1 (Np.ceil (Np.true_divide (ab.2 - ab.1) max_spacing)));
  Np.linspace ab.1 ab.2 num.

(** Rational literals. *)
Definition q (a : Z) (b : positive) : Qc := Q2Qc (a # b).

(** ** Data model *)

(** [Material] (external): only its density is read here. *)
Record Material : Type := { density : Qc }.

#[global] Instance Material_eq_dec : EqDecision Material.
Proof. solve_decision. Defined.

(** A point of space, the payload of a [SpatialArray] of shape [(3,)]. *)
Record vec3 : Type := Vec3 { vx : Qc; vy : Qc; vz : Qc }.

#[global] Instance vec3_eq_dec : EqDecision vec3.
Proof. solve_decision. Defined.

Definition vzero : vec3 := Vec3 0 0 0.
Definition vadd (a b : vec3) : vec3 :=
  Vec3 (vx a + vx b) (vy a + vy b) (vz a + vz b).
(** [k * v] for a scalar [k] *)
Definition vscale (k : Qc) (v : vec3) : vec3 :=
  Vec3 (k * vx v) (k * vy v) (k * vz v).

(** [PointMass(mass, coordinates, tag)]; the class does not constrain the
    type of [coordinates], which is a parameter here. *)
Record PointMass (C : Type) : Type :=
  { mass : Qc; coordinates : C; tag : string }.
Arguments Build_PointMass {C} _ _ _.
Arguments mass {C} _.
Arguments coordinates {C} _.
Arguments tag {C} _.

#[global] Instance PointMass_eq_dec `{EqDecision C} : EqDecision (PointMass C).
Proof. solve_decision. Defined.

(** [GeometricCurve(name, data)] *)
Record GeometricCurve : Type :=
  { curve_name : string; data : list vec3 }.

#[global] Instance GeometricCurve_eq_dec : EqDecision GeometricCurve.
Proof. solve_decision. Defined.

(** The member of the surface-type enumeration, identified by its name. *)
Record SurfaceType : Type := { name : string }.

#[global] Instance SurfaceType_eq_dec : EqDecision SurfaceType.
Proof. solve_decision. Defined.
#[global] Instance SurfaceType_countable : Countable SurfaceType.
Proof. by apply (inj_countable' name Build_SurfaceType); intros []. Defined.

(** The triangulated mesh of a surface: its [xx], [yy], [zz] arrays. *)
Record Mesh : Type :=
  { xx : list (list Qc); yy : list (list Qc); zz : list (list Qc) }.

Record GeometricSurface : Type :=
  { surface_name : string;
    surface_type : SurfaceType;
    wingspans : list Qc;
    curves : list GeometricCurve;
    mesh : Mesh }.

Record AircraftGeometry : Type := { surfaces : list GeometricSurface }.

Record StructuralRib : Type :=
  { rib_curve : GeometricCurve; rib_thickness : Qc; rib_material : Material }.

#[global] Instance StructuralRib_eq_dec : EqDecision StructuralRib.
Proof. solve_decision. Defined.

(** [StructuralSpar] (external): consumed through its [mass] property. *)
Record StructuralSpar : Type := { spar_mass : PointMass vec3 }.

(** A surface coating; [cache] is the slot that [cached_property] fills
    in the instance dictionary on the first read of [_centroid_area]. *)
Record SurfaceCoating : Type :=
  { coat_surface : GeometricSurface;
    coat_thickness : Qc;
    coat_material : Material;
    cache : option (vec3 * Qc) }.

(** *** Configuration dictionaries *)

(** A value passed as a keyword argument. *)
Inductive kwval : Type :=
| KwNum (x : Qc)
| KwMaterial (m : Material).

(** A value bound to a key of a surface configuration. *)
Inductive cfgval : Type :=
| CNone
| CBool (b : bool)
| CNum (x : Qc)
| CStr (s : string)
| CList (l : list kwval)
| CDict (kw : gmap string kwval).

(** Python truthiness, as tested by [if value:]. *)
Definition truthy (v : cfgval) : bool :=
  match v with
  | CNone => false
  | CBool b => b
  | CNum x => bool_decide (x ≠ 0)
  | CStr s => bool_decide (s ≠ "")
  | CList l => bool_decide (l ≠ [])
  | CDict kw => bool_decide (kw ≠ ∅)
  end.

(** [**value] in a call: the value has to be a mapping. *)
Definition unpack (v : cfgval) : result (gmap string kwval) :=
  match v with
  | CDict kw => Ok kw
  | _ => Raise TypeError
  end.

(** Binding of keyword arguments to a signature: an unknown keyword or a
    missing required one is a [TypeError]. *)
Definition bind_keywords (required optional : list string)
    (kw : gmap string kwval) : result unit :=
  if decide (dom kw ⊆ list_to_set (required ++ optional)
             ∧ list_to_set required ⊆ dom kw)
  then Ok () else Raise TypeError.

(** The annotations of the signatures are taken as their contract: an
    argument whose value has another type than the annotated one is
    rejected as a [TypeError]. *)
Definition keyword (kw : gmap string kwval) (k : string) : result kwval :=
  from_option Ok (Raise TypeError) (kw !! k).
Definition as_num (v : kwval) : result Qc :=
  match v with KwNum x => Ok x | _ => Raise TypeError end.
Definition as_material (v : kwval) : result Material :=
  match v with KwMaterial m => Ok m | _ => Raise TypeError end.

Record SurfaceStructure : Type :=
  { surface : GeometricSurface;
    spars : list StructuralSpar;
    ribs : list StructuralRib;
    coatings : list SurfaceCoating;
    config : gmap string cfgval }.

Record StructuralModel : Type :=
  { aircraft : AircraftGeometry;
    configuration : gmap SurfaceType (gmap string cfgval);
    structures : list SurfaceStructure;
    ext_spars : list StructuralSpar }.

(** ** Collaborators outside [structural_model.py]

    The modules these come from are not part of the sources at hand; the
    structural model only calls them, so they are parameters of the
    development. *)
Class Collaborators : Type :=
  { (** [src.utils.interpolation.vector_interpolation(x, xp, fp)] *)
    vector_interpolation :
      list Qc → list Qc → list (list vec3) → result (list (list vec3));
    (** [GeometricCurve.area] and [GeometricCurve.centroid] *)
    curve_area : GeometricCurve → Qc;
    curve_centroid : GeometricCurve → vec3;
    (** [surface_centroid_area(xx, yy, zz)], its centroid wrapped as a
        [SpatialArray] (lines 93-94) *)
    surface_centroid_area : Mesh → vec3 * Qc;
    (** [StructuralSpar.create_main_spar(surface, **kw)] and
        [StructuralSpar.create_spar(surface, **kw)] *)
    create_main_spar :
      GeometricSurface → gmap string kwval → result StructuralSpar;
    create_spar :
      GeometricSurface → gmap string kwval → result StructuralSpar;
    (** the constructor [SpatialArray(array)] *)
    SpatialArray : Np.ndarray → result Np.ndarray }.

(** ** [StructuralRib] *)

Section StructuralRib.
Context `{Collaborators}.

Definition StructuralRib_area (r : StructuralRib) : Qc :=
  curve_area (rib_curve r).

Definition StructuralRib_centroid (r : StructuralRib) : vec3 :=
  curve_centroid (rib_curve r).

Definition StructuralRib_mass (r : StructuralRib) : PointMass vec3 :=
  {| mass := StructuralRib_area r * rib_thickness r * density (rib_material r);
     coordinates := StructuralRib_centroid r;
     tag := "Rib" |}.

End StructuralRib.

(** ** [SurfaceCoating] and its cached centroid/area pair

    Reading a property of a coating can write the instance's cache, so
    the properties are state transformers over the instance.  The state
    also counts the evaluations of [surface_centroid_area]. *)

Module Coating.

Record world : Type :=
  { self : SurfaceCoating;
    calls : nat }.

Definition State (A : Type) : Type := world → A * world.

Definition ret {A} (a : A) : State A := λ w, (a, w).
Definition bind {A B} (m : State A) (k : A → State B) : State B :=
  λ w, let '(a, w') := m w in k a w'.

Declare Scope coating_scope.
Delimit Scope coating_scope with coating.
Notation "x <- m ;; k" := (bind m (λ x, k))
  (at level 100, m at next level, right associativity) : coating_scope.
Local Open Scope coating_scope.

(** [SurfaceCoating.__init__] *)
Definition init (surface : GeometricSurface) (thickness : Qc)
    (material : Material) : SurfaceCoating :=
  {| coat_surface := surface;
     coat_thickness := thickness;
     coat_material := material;
     cache := None |}.

Definition set_cache (c : SurfaceCoating) (v : vec3 * Qc) : SurfaceCoating :=
  {| coat_surface := coat_surface c;
     coat_thickness := coat_thickness c;
     coat_material := coat_material c;
     cache := Some v |}.

(** [surface.xx, surface.yy, surface.zz = m]: the surface object is
    shared and mutable, the coating only holds a reference to it. *)
Definition set_mesh (c : SurfaceCoating) (m : Mesh) : SurfaceCoating :=
  {| coat_surface :=
       {| surface_name := surface_name (coat_surface c);
          surface_type := surface_type (coat_surface c);
          wingspans := wingspans (coat_surface c);
          curves := curves (coat_surface c);
          mesh := m |};
     coat_thickness := coat_thickness c;
     coat_material := coat_material c;
     cache := cache c |}.

Section Properties.
Context `{Collaborators}.

(** [_centroid_area], a [functools.cached_property]: the first read runs
    the body and stores its value in the instance, later reads return
    the stored value. *)
Definition _centroid_area : State (vec3 * Qc) := λ w,
  match cache (self w) with
  | Some v => (v, w)
  | None =>
      let v := surface_centroid_area (mesh (coat_surface (self w))) in
      (v, {| self := set_cache (self w) v; calls := S (calls w) |})
  end.

Definition centroid : State vec3 :=
  ca <- _centroid_area;; ret (fst ca).

Definition area : State Qc :=
  ca <- _centroid_area;; ret (snd ca).

Definition mass : State (PointMass vec3) :=
  a <- area;;
  c <- centroid;;
  λ w, (Build_PointMass
          (a * coat_thickness (self w) * density (coat_material (self w)))
          c "SurfaceCoating", w).

(** The state after the body of [_centroid_area] has run on [w]. *)
Definition filled (w : world) : world :=
  {| self := set_cache (self w)
               (surface_centroid_area (mesh (coat_surface (self w))));
     calls := S (calls w) |}.

(** The value of the [mass] property of a coating. *)
Definition mass_of (c : SurfaceCoating) : PointMass vec3 :=
  fst (mass {| self := c; calls := 0 |}).

End Properties.
End Coating.

(** ** [SurfaceStructure] *)

(** [SurfaceStructure.__init__] *)
Definition SurfaceStructure_init (surface : GeometricSurface)
    (config : gmap string cfgval) : SurfaceStructure :=
  {| surface := surface; spars := []; ribs := []; coatings := [];
     config := config |}.

Definition add_spar (st : SurfaceStructure) (spar : StructuralSpar)
  : SurfaceStructure :=
  {| surface := surface st; spars := spars st ++ [spar]; ribs := ribs st;
     coatings := coatings st; config := config st |}.

Definition add_rib (st : SurfaceStructure) (rib : StructuralRib)
  : SurfaceStructure :=
  {| surface := surface st; spars := spars st; ribs := ribs st ++ [rib];
     coatings := coatings st; config := config st |}.

Definition add_coating (st : SurfaceStructure) (coating : SurfaceCoating)
  : SurfaceStructure :=
  {| surface := surface st; spars := spars st; ribs := ribs st;
     coatings := coatings st ++ [coating]; config := config st |}.

(** The default of [thickness]: [3 / 16 * 2.54 / 100]. *)
Definition default_rib_thickness : Qc := q 3 16 * q 254 100 / Qc_of_Z 100.

(** [s[0]] on a string. *)
Definition first_char (s : string) : result string :=
  match s with
  | EmptyString => Raise IndexError
  | String c _ => Ok (String c EmptyString)
  end.

Section SurfaceStructure.
Context `{Collaborators}.

(** The body of the loop of [calculate_ribs] that builds rib [i]. *)
Definition build_rib (surface : GeometricSurface) (material : Material)
    (thickness : Qc) (ic : nat * list vec3) : result StructuralRib :=
  let '(i, curve) := ic in
  initial ← first_char (name (surface_type surface));
  let rib_name := initial +:+ "_rib_" +:+ pretty i in
  Ok {| rib_curve := {| curve_name := rib_name; data := curve |};
        rib_thickness := thickness;
        rib_material := material |}.

Definition calculate_ribs (surface : GeometricSurface) (material : Material)
    (max_spacing : Qc) (thickness : Qc) : result (list StructuralRib) :=
  let wingspans := wingspans surface in
  rib_positions ← rib_positions wingspans max_spacing;
  let section_curves := data <$> curves surface in
  ribs_geometry ← vector_interpolation rib_positions wingspans section_curves;
  Py.comprehension (build_rib surface material thickness)
    (Py.enumerate ribs_geometry).

(** [self.calculate_ribs(self.surface, **rib_config)] *)
Definition call_calculate_ribs (surface : GeometricSurface)
    (kw : gmap string kwval) : result (list StructuralRib) :=
  _ ← bind_keywords ["material"; "max_spacing"] ["thickness"] kw;
  material ← keyword kw "material" ≫= as_material;
  max_spacing ← keyword kw "max_spacing" ≫= as_num;
  thickness ← from_option as_num (Ok default_rib_thickness) (kw !! "thickness");
  calculate_ribs surface material max_spacing thickness.

(** [SurfaceCoating(self.surface, **coating_config)] *)
Definition call_SurfaceCoating (surface : GeometricSurface)
    (kw : gmap string kwval) : result SurfaceCoating :=
  _ ← bind_keywords ["thickness"; "material"] [] kw;
  thickness ← keyword kw "thickness" ≫= as_num;
  material ← keyword kw "material" ≫= as_material;
  Ok (Coating.init surface thickness material).

(** The pattern [x = config.get(key); if x: ...] of
    [initialize_structure]: [body] runs on the unpacked dictionary when
    the key is bound to a truthy value, and not at all otherwise. *)
Definition when_configured (key : string)
    (body : SurfaceStructure → gmap string kwval → result SurfaceStructure)
    (st : SurfaceStructure) : result SurfaceStructure :=
  match config st !! key with
  | Some v =>
      if truthy v then kw ← unpack v; body st kw else Ok st
  | None => Ok st
  end.

Definition initialize_structure (st : SurfaceStructure)
  : result SurfaceStructure :=
  st ← when_configured "main_spar" (λ st kw,
         spar ← create_main_spar (surface st) kw;
         Ok (add_spar st spar)) st;
  st ← when_configured "secondary_spar" (λ st kw,
         spar ← create_spar (surface st) kw;
         Ok (add_spar st spar)) st;
  st ← when_configured "ribs" (λ st kw,
         calculated_ribs ← call_calculate_ribs (surface st) kw;
         Ok (foldl add_rib st calculated_ribs)) st;
  when_configured "surface_coating" (λ st kw,
    coating ← call_SurfaceCoating (surface st) kw;
    Ok (add_coating st coating)) st.

(** [collect_masses]: each call makes a new generator over
    [chain(self.spars, self.ribs, self.coatings)]. *)
Definition collect_masses (st : SurfaceStructure) : list (PointMass vec3) :=
  (spar_mass <$> spars st)
  ++ (StructuralRib_mass <$> ribs st)
  ++ (Coating.mass_of <$> coatings st).

(** [np.sum(np.array(rows), axis=0)]: over no rows at all the array has
    shape [(0,)] and the sum is the scalar [0.0]. *)
Definition sum_axis0 (rows : list vec3) : Qc + vec3 :=
  match rows with
  | [] => inl 0
  | _ => inr (foldl vadd vzero rows)
  end.

(** [weighted_coordinates / total_mass] *)
Definition divide (w : Qc + vec3) (total : Qc) : Np.ndarray :=
  match w with
  | inl x => Np.Scalar (Np.true_divide x total)
  | inr v => Np.Array1 [Np.true_divide (vx v) total;
                        Np.true_divide (vy v) total;
                        Np.true_divide (vz v) total]
  end.

(** The built-in [sum]: a left fold starting from [0]. *)
Definition py_sum (xs : list Qc) : Qc := foldl Qcplus 0 xs.

(** The body of the [mass] property over the sequence that
    [collect_masses()] yields (it is traversed twice, once per call). *)
Definition aggregate (tag : string) (point_masses : list (PointMass vec3))
  : result (PointMass Np.ndarray) :=
  let weighted_coordinates :=
    (λ pm, vscale (mass pm) (coordinates pm)) <$> point_masses in
  let weighted_coordinates := sum_axis0 weighted_coordinates in
  let total_mass := py_sum (mass <$> point_masses) in
  let coordinates := divide weighted_coordinates total_mass in
  c ← SpatialArray coordinates;
  Ok {| mass := total_mass; coordinates := c; tag := tag |}.

Definition SurfaceStructure_mass (st : SurfaceStructure)
  : result (PointMass Np.ndarray) :=
  aggregate (surface_name (surface st)) (collect_masses st).

(** ** [StructuralModel] *)

(** The loop of [StructuralModel.__init__]; [acc] is [self.structures]. *)
Fixpoint build_structures
    (configuration : gmap SurfaceType (gmap string cfgval))
    (surfaces : list GeometricSurface) (acc : list SurfaceStructure)
  : result (list SurfaceStructure) :=
  match surfaces with
  | [] => Ok acc
  | surface :: rest =>
      cfg ← from_option Ok (Raise KeyError)
              (configuration !! surface_type surface);
      struct ← initialize_structure (SurfaceStructure_init surface cfg);
      build_structures configuration rest (acc ++ [struct])
  end.

Definition StructuralModel_init (aircraft : AircraftGeometry)
    (configuration : gmap SurfaceType (gmap string cfgval))
  : result StructuralModel :=
  structures ← build_structures configuration (surfaces aircraft) [];
  Ok {| aircraft := aircraft; configuration := configuration;
        structures := structures; ext_spars := [] |}.

End SurfaceStructure.

(** *** Traces of reads of one coating

    A client of a coating reads its properties in any order and may, in
    between, assign new arrays to the shared surface object. *)
Module CoatingTrace.
Import Coating.
Local Open Scope coating_scope.

Inductive access : Type :=
| ReadCentroid
| ReadArea
| ReadMass
| SetMesh (m : Mesh).

Inductive observation : Type :=
| Centroid (c : vec3)
| Area (a : Qc)
| Mass (pm : PointMass vec3)
| Assigned.

Section Run.
Context `{Collaborators}.

Definition step (a : access) : State observation :=
  match a with
  | ReadCentroid => c <- centroid;; ret (Centroid c)
  | ReadArea => a <- area;; ret (Area a)
  | ReadMass => pm <- mass;; ret (Mass pm)
  | SetMesh m => λ w,
      (Assigned, {| self := set_mesh (self w) m; calls := calls w |})
  end.

Fixpoint run (ops : list access) : State (list observation) :=
  match ops with
  | [] => ret []
  | a :: ops' => o <- step a;; os <- run ops';; ret (o :: os)
  end.

End Run.

(** The mesh that the surface holds when the first property is read. *)
Fixpoint mesh_at_first_read (ops : list access) (m0 : Mesh) : Mesh :=
  match ops with
  | SetMesh m :: ops' => mesh_at_first_read ops' m
  | _ => m0
  end.

Definition is_read (a : access) : bool :=
  match a with SetMesh _ => false | _ => true end.

(** [o] shows (a part of) the pair [v] for a coating of the given
    thickness and material. *)
Definition view_of (v : vec3 * Qc) (thickness : Qc) (material : Material)
    (o : observation) : Prop :=
  match o with
  | Centroid c => c = v.1
  | Area a => a = v.2
  | Mass pm =>
      pm = Build_PointMass (v.2 * thickness * density material) v.1
             "SurfaceCoating"
  | Assigned => True
  end.

End CoatingTrace.

(** ** Reference sums

    The sums [Σ m_i] and [Σ m_i · c_i] written as right folds, against
    which the left folds of the code are compared. *)
Definition total (xs : list Qc) : Qc := foldr Qcplus 0 xs.
Definition vtotal (vs : list vec3) : vec3 := foldr vadd vzero vs.
Definition weighted (pm : PointMass vec3) : vec3 :=
  vscale (mass pm) (coordinates pm).

(** ** Vocabulary of the statements about construction *)

(** The structure [st] under another configuration dictionary. *)
Definition set_config (c : gmap string cfgval) (st : SurfaceStructure)
  : SurfaceStructure :=
  {| surface := surface st; spars := spars st; ribs := ribs st;
     coatings := coatings st; config := c |}.

(** The collaborators with another spar factory. *)
Definition with_create_main_spar
    (f : GeometricSurface → gmap string kwval → result StructuralSpar)
    (C : Collaborators) : Collaborators :=
  {| vector_interpolation := @vector_interpolation C;
     curve_area := @curve_area C;
     curve_centroid := @curve_centroid C;
     surface_centroid_area := @surface_centroid_area C;
     create_main_spar := f;
     create_spar := @create_spar C;
     SpatialArray := @SpatialArray C |}.

Definition with_create_spar
    (f : GeometricSurface → gmap string kwval → result StructuralSpar)
    (C : Collaborators) : Collaborators :=
  {| vector_interpolation := @vector_interpolation C;
     curve_area := @curve_area C;
     curve_centroid := @curve_centroid C;
     surface_centroid_area := @surface_centroid_area C;
     create_main_spar := @create_main_spar C;
     create_spar := f;
     SpatialArray := @SpatialArray C |}.

(** One turn of the loop of [StructuralModel.__init__]. *)
Definition build_structure `{Collaborators}
    (configuration : gmap SurfaceType (gmap string cfgval))
    (surface : GeometricSurface) : result SurfaceStructure :=
  cfg ← from_option Ok (Raise KeyError) (configuration !! surface_type surface);
  initialize_structure (SurfaceStructure_init surface cfg).

(** ** Vocabulary of the statements about falsy configuration keys *)

(** A stage [f] of [initialize_structure] gives the same outcome under
    the configuration [c'] as under [c0], which it leaves in place. *)
Definition respects (c0 c' : gmap string cfgval)
    (f : SurfaceStructure → result SurfaceStructure) : Prop :=
  ∀ st, config st = c0 →
    f (set_config c' st) = set_config c' <$> f st
    ∧ ∀ st', f st = Ok st' → config st' = c0.

(** The body of a stage does not look at the configuration and does not
    change it. *)
Definition appends
    (body : SurfaceStructure → gmap string kwval → result SurfaceStructure)
  : Prop :=
  ∀ st kw,
    (∀ c', body (set_config c' st) kw = set_config c' <$> body st kw)
    ∧ ∀ st', body st kw = Ok st' → config st' = config st.

(** [st'] has the configuration and the ribs of [st]. *)
Definition same_ribs (st st' : SurfaceStructure) : Prop :=
  config st' = config st ∧ ribs st' = ribs st.

(** [st'] has the configuration and the coatings of [st]. *)
Definition same_coatings (st st' : SurfaceStructure) : Prop :=
  config st' = config st ∧ coatings st' = coatings st.

(** ** Sample data

    Concrete collaborators and inputs on which the model is evaluated.
    The collaborators are stand-ins for modules that are not among the
    sources: the sample interpolation returns the first section curve at
    every requested position, areas are 1 and centroids the origin, and
    [SpatialArray] wraps whatever array it is given. *)
Module Sample.

Definition collaborators : Collaborators :=
  {| vector_interpolation := λ x xp fp, Ok ((λ _, default [] (head fp)) <$> x);
     curve_area := λ _, 1;
     curve_centroid := λ _, vzero;
     surface_centroid_area := λ _, (vzero, 1);
     create_main_spar := λ _ _, Raise TypeError;
     create_spar := λ _ _, Raise TypeError;
     SpatialArray := Ok |}.

Definition balsa : Material := {| density := Qc_of_Z 100 |}.

Definition no_mesh : Mesh := {| xx := []; yy := []; zz := [] |}.

Definition wing (stations : list Qc) : GeometricSurface :=
  {| surface_name := "wing";
     surface_type := {| name := "MAIN_WING" |};
     wingspans := stations;
     curves := [];
     mesh := no_mesh |}.

(** A configuration whose [main_spar] key is bound to an empty
    dictionary, next to a well-formed [ribs] entry. *)
Definition config_empty_main_spar : gmap string cfgval :=
  <["main_spar" := CDict ∅]>
    (<["ribs" := CDict (<["material" := KwMaterial balsa]>
                         (<["max_spacing" := KwNum 1]> ∅))]> ∅).

Definition aircraft : AircraftGeometry :=
  {| surfaces := [wing [q 0 1; q 2 1]] |}.

(** A structure built from an empty configuration: no element. *)
Definition bare_structure : SurfaceStructure :=
  SurfaceStructure_init (wing [q 0 1; q 2 1]) ∅.

(** A structure about to be initialised from [config_empty_main_spar]. *)
Definition unbuilt_structure : SurfaceStructure :=
  SurfaceStructure_init (wing [q 0 1; q 2 1]) config_empty_main_spar.

(** An aircraft whose wing has a single station and whose fin has no
    configuration entry in [config_wing_ribs]. *)
Definition fin : GeometricSurface :=
  {| surface_name := "fin";
     surface_type := {| name := "FIN" |};
     wingspans := [q 0 1; q 1 1];
     curves := [];
     mesh := no_mesh |}.

Definition aircraft_wing_fin : AircraftGeometry :=
  {| surfaces := [wing [q 5 2]; fin] |}.

Definition config_wing_ribs : gmap SurfaceType (gmap string cfgval) :=
  <[ {| name := "MAIN_WING" |} :=
       <["ribs" := CDict (<["material" := KwMaterial balsa]>
                            (<["max_spacing" := KwNum 1]> ∅))]> ∅ ]> ∅.

Definition point_a : PointMass vec3 :=
  {| mass := q 2 1; coordinates := Vec3 1 0 0; tag := "Spar" |}.
Definition point_b : PointMass vec3 :=
  {| mass := q 1 1; coordinates := Vec3 0 1 0; tag := "Rib" |}.

End Sample.

(** ** Vocabulary of the statements about ribs *)

(** The rib that [calculate_ribs] builds from the [i]-th interpolated
    curve of a surface whose type name starts with [initial]. *)
Definition named_rib (initial : string) (material : Material)
    (thickness : Qc) (i : nat) (curve : list vec3) : StructuralRib :=
  {| rib_curve := {| curve_name := initial +:+ "_rib_" +:+ pretty i;
                     data := curve |};
     rib_thickness := thickness;
     rib_material := material |}.

(** ** Vocabulary of the statements about [initialize_structure] *)



(** Further sample data. *)
Module Sample2.

(** A structure whose [main_spar] entry is [True]. *)
Definition structure_main_spar_true : SurfaceStructure :=
  SurfaceStructure_init (Sample.wing [q 0 1; q 2 1])
    (<["main_spar" := CBool true]> ∅).

(** A coating entry that lacks [material]. *)
Definition coating_without_material : gmap string kwval :=
  <["thickness" := KwNum (q 1 1000)]> ∅.

Definition structure_bad_coating : SurfaceStructure :=
  SurfaceStructure_init (Sample.wing [q 0 1; q 2 1])
    (<["surface_coating" := CDict coating_without_material]> ∅).

(** Configurations for the sample aircraft: one entry for its only
    surface type, and the same with an entry for a type it does not have. *)
Definition configuration : gmap SurfaceType (gmap string cfgval) :=
  <[ {| name := "MAIN_WING" |} := Sample.config_empty_main_spar ]> ∅.

Definition configuration_more : gmap SurfaceType (gmap string cfgval) :=
  <[ {| name := "FIN" |} := ∅ ]> configuration.

End Sample2.

(** * The arithmetic of the code: binary64

    The definitions above read the arithmetic of the program as that of
    the rational numbers.  The program computes with IEEE 754 binary64
    numbers, whose operations round, overflow to an infinity and
    underflow to zero.  This module embeds the two numerical kernels of
    [structural_model.py], the rib positions (lines 187-197) and the
    aggregation of point masses (lines 214-240), over binary64, with the
    operations of [SpecFloat] at precision 53 and maximal exponent 1024
    (round to nearest, ties to even).  What holds of the program whatever
    the rounding is proved above; what depends on the rounding is proved
    here. *)

Module F64.
Import SpecFloat.

Definition prec : Z := 53.
Definition emax : Z := 1024.

Definition float : Type := spec_float.

#[global] Instance float_eq_dec : EqDecision float.
Proof. solve_decision. Defined.

Definition add : float → float → float := SFadd prec emax.
Definition sub : float → float → float := SFsub prec emax.
Definition mul : float → float → float := SFmul prec emax.
Definition divide : float → float → float := SFdiv prec emax.

(** [x == y] and [x < y] on floats: false as soon as one side is [nan];
    the two zeros are equal. *)
Definition eqb : float → float → bool := SFeqb.
Definition ltb : float → float → bool := SFltb.

Definition zero : float := S754_zero false.
Definition infinity : float := S754_infinity false.
Definition nan : float := S754_nan.

(** The float of an integer (exact below [2^53]). *)
Definition of_Z (z : Z) : float := binary_normalize prec emax z 0 false.

Definition one : float := of_Z 1.

(** [2.0 ** k] *)
Definition pow2 (k : Z) : float := SFldexp prec emax one k.

Definition is_nan (x : float) : bool :=
  match x with S754_nan => true | _ => false end.

(** A zero or a finite number, as opposed to [nan] and the infinities. *)
Definition is_finite (x : float) : bool :=
  match x with
  | S754_zero _ | S754_finite _ _ _ => true
  | _ => false
  end.

(** The rational number that a float stands for ([None] for [nan] and
    the infinities). *)
Definition value (x : float) : option Qc :=
  match x with
  | S754_zero _ => Some (Qc_of_Z 0)
  | S754_finite s m e =>
      let v := Q2Qc (inject_Z (Z.pos m) * Qpower 2 e) in
      Some (if s then Qcopp v else v)
  | _ => None
  end.

(** *** The NumPy operations on binary64 *)

(** [np.ceil]: the least integral float not below [x]; a negative
    fraction above [-1] gives [-0.0]. *)
Definition ceil (x : float) : float :=
  match x with
  | S754_finite s m e =>
      if decide (0 ≤ e)%Z then x
      else
        let whole := Z.shiftr (Z.pos m) (- e) in
        if s then binary_normalize prec emax (- whole) 0 true
        else if decide (Z.shiftl whole (- e) = Z.pos m) then of_Z whole
             else of_Z (whole + 1)
  | _ => x
  end.

(** Python's [int(x)] on a float: truncation towards zero;
    [OverflowError] on an infinity, [ValueError] on [nan]. *)
Definition int (x : float) : result Z :=
  match x with
  | S754_zero _ => Ok 0%Z
  | S754_finite s m e =>
      let magnitude :=
        if decide (0 ≤ e)%Z then Z.shiftl (Z.pos m) e
        else Z.shiftr (Z.pos m) (- e) in
      Ok (if s then (- magnitude)%Z else magnitude)
  | S754_infinity _ => Raise OverflowError
  | S754_nan => Raise ValueError
  end.

(** [np.arange(0, num)] as floats. *)
Definition arange (num : Z) : list float :=
  (λ i : nat, of_Z (Z.of_nat i)) <$> seq 0 (Z.to_nat num).

(** [np.linspace(start, stop, num)] with the default [endpoint=True], as
    NumPy computes it: the samples are [i * step + start] with
    [step = (stop - start) / (num - 1)], each operation rounded; when the
    step underflows to zero they are [i / (num - 1) * (stop - start) +
    start]; for a single sample there is no step and [stop - start]
    stands in.  With two samples or more the last one is overwritten with
    [stop] itself.  A negative [num] is a [ValueError]. *)
Definition linspace (start stop : float) (num : Z) : result (list float) :=
  if decide (num < 0)%Z then Raise ValueError
  else
    let div := (num - 1)%Z in
    let delta := sub stop start in
    let y := arange num in
    let y :=
      if decide (0 < div)%Z then
        let step := divide delta (of_Z div) in
        if eqb step zero
        then (λ i, mul (divide i (of_Z div)) delta) <$> y
        else (λ i, mul i step) <$> y
      else (λ i, mul i delta) <$> y in
    let y := (λ v, add v start) <$> y in
    Ok (if decide (1 < num)%Z
        then <[ (length y - 1)%nat := stop ]> y
        else y).

(** [np.concatenate(arrays)]: at least one array is needed. *)
Definition concatenate (arrays : list (list float)) : result (list float) :=
  match arrays with
  | [] => Raise ValueError
  | _ => Ok (mjoin arrays)
  end.

(** The order in which [np.sort] arranges floats: ascending, every
    [nan] at the end. *)
Definition sort_le (x y : float) : bool :=
  match SFcompare x y with
  | Some Gt => false
  | Some _ => true
  | None => is_nan y
  end.

(** Two floats that [np.unique] takes for one value. *)
Definition same (x y : float) : bool :=
  eqb x y || (is_nan x && is_nan y).

(** The elements of a sorted array that differ from their predecessor
    [prev]. *)
Fixpoint distinct_from (prev : float) (a : list float) : list float :=
  match a with
  | [] => []
  | x :: a' =>
      if same prev x then distinct_from x a' else x :: distinct_from x a'
  end.

(** [np.unique]: the array is sorted and the first element of every run
    of equal values is kept.  (Which of [0.0] and [-0.0] comes first in a
    run depends on NumPy's sorting routine; the model sorts stably.) *)
Definition unique (a : list float) : list float :=
  match merge_sort (λ x y, Is_true (sort_le x y)) a with
  | [] => []
  | x :: a' => x :: distinct_from x a'
  end.

(** *** Rib positions: lines 187-197 of [calculate_ribs] *)

(** [n_ribs = np.ceil((wingspans[1:] - wingspans[:-1]) / max_spacing)] *)
Definition n_ribs (wingspans : list float) (max_spacing : float)
  : list float :=
  (λ d, ceil (divide d max_spacing))
    <$> zip_with sub (Np.slice_from_1 wingspans) (Np.slice_to_last wingspans).

(** The body of the comprehension building [section_ribs]. *)
Definition section_rib (wingspans : list float) (ix : nat * float)
  : result (list float) :=
  let '(i, n) := ix in
  start ← Py.index wingspans i;
  stop ← Py.index wingspans (i + 1);
  num ← int (add n one);
  linspace start stop num.

Definition section_ribs (wingspans : list float) (max_spacing : float)
  : result (list (list float)) :=
  Py.comprehension (section_rib wingspans)
    (Py.enumerate (n_ribs wingspans max_spacing)).

(** [rib_positions = np.unique(np.concatenate(section_ribs))] *)
Definition rib_positions (wingspans : list float) (max_spacing : float)
  : result (list float) :=
  sections ← section_ribs wingspans max_spacing;
  all ← concatenate sections;
  Ok (unique all).

(** *** Point masses and the elements that have one *)

(** A point of space, the payload of a [SpatialArray] of shape [(3,)]. *)
Record vec3 : Type := Vec3 { vx : float; vy : float; vz : float }.

#[global] Instance vec3_eq_dec : EqDecision vec3.
Proof. solve_decision. Defined.

(** [a + b] and [k * v] on arrays of shape [(3,)] *)
Definition vadd (a b : vec3) : vec3 :=
  Vec3 (add (vx a) (vx b)) (add (vy a) (vy b)) (add (vz a) (vz b)).
Definition vscale (k : float) (v : vec3) : vec3 :=
  Vec3 (mul k (vx v)) (mul k (vy v)) (mul k (vz v)).

(** [PointMass(mass, coordinates, tag)] *)
Record PointMass (C : Type) : Type :=
  { mass : float; coordinates : C; tag : string }.
Arguments Build_PointMass {C} _ _ _.
Arguments mass {C} _.
Arguments coordinates {C} _.
Arguments tag {C} _.

#[global] Instance PointMass_eq_dec `{EqDecision C} : EqDecision (PointMass C).
Proof. solve_decision. Defined.

(** An array as far as its shape matters here: a zero-dimensional value
    or a one-dimensional array. *)
Inductive ndarray : Type :=
| Scalar (x : float)
| Array1 (v : list float).

#[global] Instance ndarray_eq_dec : EqDecision ndarray.
Proof. solve_decision. Defined.

Record Material : Type := { density : float }.

Record GeometricCurve : Type :=
  { curve_name : string; data : list vec3 }.

(** The triangulated mesh of a surface: its [xx], [yy], [zz] arrays. *)
Record Mesh : Type :=
  { xx : list (list float); yy : list (list float); zz : list (list float) }.

(** A surface, with the attributes that the mass of a structure reads. *)
Record GeometricSurface : Type :=
  { surface_name : string; mesh : Mesh }.

Record StructuralRib : Type :=
  { rib_curve : GeometricCurve;
    rib_thickness : float;
    rib_material : Material }.

(** [StructuralSpar] (external): consumed through its [mass] property. *)
Record StructuralSpar : Type := { spar_mass : PointMass vec3 }.

(** A surface coating with the slot of its cached centroid/area pair. *)
Record SurfaceCoating : Type :=
  { coat_surface : GeometricSurface;
    coat_thickness : float;
    coat_material : Material;
    cache : option (vec3 * float) }.

Record SurfaceStructure : Type :=
  { surface : GeometricSurface;
    spars : list StructuralSpar;
    ribs : list StructuralRib;
    coatings : list SurfaceCoating }.

(** The collaborators that the mass of a structure calls; their modules
    are not among the sources. *)
Class Externals : Type :=
  { (** [GeometricCurve.area] and [GeometricCurve.centroid] *)
    curve_area : GeometricCurve → float;
    curve_centroid : GeometricCurve → vec3;
    (** [surface_centroid_area(xx, yy, zz)] *)
    surface_centroid_area : Mesh → vec3 * float;
    (** the constructor [SpatialArray(array)] *)
    SpatialArray : ndarray → result ndarray }.

Section mass.
Context `{Externals}.

(** [StructuralRib.mass]: [area * thickness * density] at the centroid
    of the curve. *)
Definition StructuralRib_mass (r : StructuralRib) : PointMass vec3 :=
  {| mass := mul (mul (curve_area (rib_curve r)) (rib_thickness r))
                 (density (rib_material r));
     coordinates := curve_centroid (rib_curve r);
     tag := "Rib" |}.

(** The pair that [_centroid_area] gives: the cached one if there is
    one, the computed one otherwise. *)
Definition _centroid_area (c : SurfaceCoating) : vec3 * float :=
  match cache c with
  | Some v => v
  | None => surface_centroid_area (mesh (coat_surface c))
  end.

(** [SurfaceCoating.mass] *)
Definition SurfaceCoating_mass (c : SurfaceCoating) : PointMass vec3 :=
  {| mass := mul (mul (_centroid_area c).2 (coat_thickness c))
                 (density (coat_material c));
     coordinates := (_centroid_area c).1;
     tag := "SurfaceCoating" |}.

(** [collect_masses]: the masses of
    [chain(self.spars, self.ribs, self.coatings)]. *)
Definition collect_masses (st : SurfaceStructure) : list (PointMass vec3) :=
  (spar_mass <$> spars st)
  ++ (StructuralRib_mass <$> ribs st)
  ++ (SurfaceCoating_mass <$> coatings st).

(** [np.sum(np.array(rows), axis=0)]: the rows are added one after the
    other onto the zero row; over no rows at all the array has shape
    [(0,)] and the sum is the scalar [0.0]. *)
Definition sum_axis0 (rows : list vec3) : float + vec3 :=
  match rows with
  | [] => inl zero
  | _ => inr (foldl vadd (Vec3 zero zero zero) rows)
  end.

(** [weighted_coordinates / total_mass]; NumPy's division only warns on
    a zero divisor. *)
Definition quotient (w : float + vec3) (total : float) : ndarray :=
  match w with
  | inl x => Scalar (divide x total)
  | inr v => Array1 [divide (vx v) total;
                     divide (vy v) total;
                     divide (vz v) total]
  end.

(** The built-in [sum] over the masses: additions from left to right,
    starting from the integer [0], each one rounded.  (This is [sum] on
    NumPy scalars, and on Python floats before Python 3.12, where it
    became a compensated summation.) *)
Definition py_sum (xs : list float) : float := foldl add zero xs.

(** The body of the [mass] property over the sequence that
    [collect_masses()] yields. *)
Definition aggregate (tag : string) (point_masses : list (PointMass vec3))
  : result (PointMass ndarray) :=
  let weighted_coordinates :=
    (λ pm, vscale (mass pm) (coordinates pm)) <$> point_masses in
  let weighted_coordinates := sum_axis0 weighted_coordinates in
  let total_mass := py_sum (mass <$> point_masses) in
  let coordinates := quotient weighted_coordinates total_mass in
  c ← SpatialArray coordinates;
  Ok {| mass := total_mass; coordinates := c; tag := tag |}.

Definition SurfaceStructure_mass (st : SurfaceStructure)
  : result (PointMass ndarray) :=
  aggregate (surface_name (surface st)) (collect_masses st).

End mass.

(** *** Vocabulary of the statements *)

(** The exact sum of the numbers that the floats of a list stand for
    ([None] when one of them is [nan] or an infinity). *)
Definition exact_sum (xs : list float) : option Qc :=
  foldr (λ x acc, v ← value x; s ← acc; Some (v + s)) (Some (Qc_of_Z 0)) xs.

(** *** Sample data *)
Module Sample.

(** The floats written [0.1], [0.01] and [0.001] in Python. *)
Definition tenth : float := S754_finite false 0x1999999999999a (-56).
Definition hundredth : float := S754_finite false 0x147ae147ae147b (-59).
Definition thousandth : float := S754_finite false 0x10624dd2f1a9fc (-62).

(** Curves of area [1.0] centred at [(0, 1, 0)], surfaces of area [1.0]
    centred at [(0, 0, 1)], and a [SpatialArray] that wraps its
    argument. *)
Definition externals : Externals :=
  {| curve_area := λ _, one;
     curve_centroid := λ _, Vec3 zero one zero;
     surface_centroid_area := λ _, (Vec3 zero zero one, one);
     SpatialArray := Ok |}.

Definition balsa : Material := {| density := of_Z 100 |}.

Definition wing : GeometricSurface :=
  {| surface_name := "wing"; mesh := {| xx := []; yy := []; zz := [] |} |}.

(** A structure with a spar of mass [2.0] at [(1, 0, 0)], a rib of
    thickness [0.01] and a coating of thickness [0.001]. *)
Definition structure : SurfaceStructure :=
  {| surface := wing;
     spars := [ {| spar_mass := {| mass := of_Z 2;
                                   coordinates := Vec3 one zero zero;
                                   tag := "Spar" |} |} ];
     ribs := [ {| rib_curve := {| curve_name := "M_rib_0"; data := [] |};
                  rib_thickness := hundredth;
                  rib_material := balsa |} ];
     coatings := [ {| coat_surface := wing;
                      coat_thickness := thousandth;
                      coat_material := balsa;
                      cache := None |} ] |}.

(** A structure with three spars, of masses [2.0], [1.0] and [0.1]. *)
Definition spar (m : float) (at_ : vec3) : StructuralSpar :=
  {| spar_mass := {| mass := m; coordinates := at_; tag := "Spar" |} |}.

Definition three_spars : SurfaceStructure :=
  {| surface := wing;
     spars := [spar (of_Z 2) (Vec3 one zero zero);
               spar one (Vec3 zero one zero);
               spar tenth (Vec3 zero zero one)];
     ribs := [];
     coatings := [] |}.

(** An element without mass, such as a rib of zero area. *)
Definition weightless : PointMass vec3 :=
  {| mass := zero; coordinates := Vec3 one zero zero; tag := "Rib" |}.

End Sample.

End F64.

(** * [src/utils/xml_parser.py]

    A Python [str] is modelled by a string whose characters are the code
    points below 256 (Latin-1); texts with other characters are outside
    the model. *)

Module Xml.
Import Stdlib.Strings.Ascii.

(** The values that the parser returns. *)
#[warnings="-register-all"]
Inductive value : Type :=
| VNone
| VBool (b : bool)
| VFloat (x : Qc)
| VStr (s : string)
| VList (l : list value)
| VDict (d : list (string * value)).

(** An [xml.etree.ElementTree.Element]: tag, text and child elements. *)
#[warnings="-register-all"]
Inductive element : Type :=
| Element (tag : string) (text : option string) (children : list element).

#[global] Instance value_eq_dec : EqDecision value.
Proof.
  refine (fix go (v w : value) {struct v} : Decision (v = w) :=
    match v, w with
    | VNone, VNone => left _
    | VBool a, VBool b => cast_if (decide (a = b))
    | VFloat x, VFloat y => cast_if (decide (x = y))
    | VStr s, VStr t => cast_if (decide (s = t))
    | VList l, VList k => cast_if (@list_eq_dec _ go l k)
    | VDict d, VDict e =>
        cast_if (@list_eq_dec _ (@prod_eq_dec _ _ _ go) d e)
    | _, _ => right _
    end); clear go; congruence.
Defined.

Definition tag_of (e : element) : string :=
  match e with Element tag _ _ => tag end.

(** *** String methods *)

Definition chars (s : string) : list ascii := String.list_ascii_of_string s.

(** [str.lower] on Latin-1: [A-Z] and the capital letters [À-Þ] (but not
    the multiplication sign) move 32 code points up. *)
Definition lower_char (c : ascii) : ascii :=
  let n := nat_of_ascii c in
  if (bool_decide (65 ≤ n ≤ 90)%nat
      || bool_decide (192 ≤ n ≤ 222 ∧ n ≠ 215)%nat)
  then ascii_of_nat (n + 32) else c.

Definition lower (s : string) : string :=
  String.string_of_list_ascii (lower_char <$> chars s).

(** [s.replace(c, "")] for a one-character string [c]. *)
Definition remove_char (c : ascii) (s : string) : string :=
  String.string_of_list_ascii (filter (λ x, x ≠ c) (chars s)).

(** The characters with a numeric value: the digits, the superscripts
    one, two, three and the fractions one quarter, one half, three
    quarters. *)
Definition is_digit (c : ascii) : bool :=
  bool_decide (48 ≤ nat_of_ascii c ≤ 57)%nat.

Definition numeric_char (c : ascii) : bool :=
  is_digit c
  || bool_decide (nat_of_ascii c ∈ [178; 179; 185; 188; 189; 190]%nat).

(** [str.isnumeric]: at least one character, all of them numeric. *)
Definition isnumeric (s : string) : bool :=
  bool_decide (s ≠ "") && forallb numeric_char (chars s).

(** [c in s] for a one-character string [c]. *)
Definition contains (c : ascii) (s : string) : bool :=
  bool_decide (c ∈ chars s).

(** [s.split(c)] for a one-character separator. *)
Fixpoint split_chars (c : ascii) (l : list ascii) : list (list ascii) :=
  match l with
  | [] => [[]]
  | x :: l' =>
      if decide (x = c) then [] :: split_chars c l'
      else match split_chars c l' with
           | [] => [[x]]
           | w :: ws => (x :: w) :: ws
           end
  end.

Definition split (c : ascii) (s : string) : list string :=
  String.string_of_list_ascii <$> split_chars c (chars s).

(** *** [float] on the texts that [is_float] lets through

    Such a text is made of numeric characters, ["."], ["-"] and [" "]
    only.  On these, [float] strips the spaces at both ends and accepts
    an optional ["-"] followed by digits with at most one ["."] and at
    least one digit; anything else is a [ValueError].  (Exponents, ["+"],
    underscores, [inf] and [nan], which [float] also reads, never get
    here.)  The value is the exact one: the rounding to a double, and
    the infinity that [float] returns for a numeral beyond the range of
    the doubles, are not modelled. *)

Fixpoint drop_spaces (l : list ascii) : list ascii :=
  match l with
  | x :: l' => if decide (x = " "%char) then drop_spaces l' else l
  | [] => []
  end.

Definition strip_spaces (l : list ascii) : list ascii :=
  reverse (drop_spaces (reverse (drop_spaces l))).

Definition digit_value (c : ascii) : Z := Z.of_nat (nat_of_ascii c) - 48.

(** The number written by a list of digits. *)
Definition digits_value (l : list ascii) : Z :=
  foldl (λ acc c, 10 * acc + digit_value c)%Z 0%Z l.

(** The text before the first ["."] and, if there is one, the text
    after it. *)
Fixpoint cut_at_point (l : list ascii) : list ascii * option (list ascii) :=
  match l with
  | [] => ([], None)
  | x :: l' =>
      if decide (x = "."%char) then ([], Some l')
      else let '(i, f) := cut_at_point l' in (x :: i, f)
  end.

Definition unsigned_value (l : list ascii) : result Qc :=
  let '(i, f) := cut_at_point l in
  let f := default [] f in
  if forallb is_digit i && forallb is_digit f
     && negb (bool_decide (i = [] ∧ f = []))
  then Ok (Qc_of_Z (digits_value i)
           + Qc_of_Z (digits_value f) / Qc_of_Z (10 ^ Z.of_nat (length f)))
  else Raise ValueError.

Definition float (s : string) : result Qc :=
  match strip_spaces (chars s) with
  | x :: l =>
      if decide (x = "-"%char) then Qcopp <$> unsigned_value l
      else unsigned_value (x :: l)
  | [] => Raise ValueError
  end.

(** *** The functions of the module *)

Definition is_float (text : string) : bool :=
  isnumeric (remove_char "-" (remove_char "." (remove_char " " text))).

(** [parse_type]; [None] stands for a text that is not a [str]. *)
Definition parse_type (text : option string) : result value :=
  match text with
  | None => Ok VNone
  | Some text =>
      if decide (lower text = "true") then Ok (VBool true)
      else if decide (lower text = "false") then Ok (VBool false)
      else if is_float text then VFloat <$> float text
      else if contains "," text then
        let vector := split "," text in
        if forallb is_float vector
        then VList <$> Py.comprehension (λ n, VFloat <$> float n) vector
        else Ok (VStr text)
      else Ok (VStr text)
  end.

(** A [dict] with string keys, in insertion order: [d.get(k)] and
    [d[k] = v]. *)
Fixpoint dict_get (d : list (string * value)) (k : string) : option value :=
  match d with
  | [] => None
  | (k', v') :: d' => if decide (k' = k) then Some v' else dict_get d' k
  end.

Fixpoint dict_set (d : list (string * value)) (k : string) (v : value)
  : list (string * value) :=
  match d with
  | [] => [(k, v)]
  | (k', v') :: d' =>
      if decide (k' = k) then (k, v) :: d' else (k', v') :: dict_set d' k v
  end.

(** The list that a value under a repeated tag is turned into: a list
    stays as it is, any other value becomes a list of one. *)
Definition as_list (old : value) : list value :=
  match old with VList l => l | _ => [old] end.

(** The body of the loop of [parse_xml_to_dict] for one child. *)
Definition add_child (return_dict : list (string * value)) (tag : string)
    (child_dict : value) : list (string * value) :=
  match dict_get return_dict tag with
  | None => dict_set return_dict tag child_dict
  | Some old => dict_set return_dict tag (VList (as_list old ++ [child_dict]))
  end.

(** The loop of [parse_xml_to_dict] over the children, given the
    function that parses one child. *)
Definition loop (parse : element → result value)
  : list element → list (string * value) → result value :=
  fix go children return_dict :=
    match children with
    | [] => Ok (VDict return_dict)
    | child :: rest =>
        child_dict ← parse child;
        go rest (add_child return_dict (tag_of child) child_dict)
    end.

Fixpoint parse_xml_to_dict (e : element) : result value :=
  match e with
  | Element _ text children =>
      match children with
      | [] => parse_type text
      | _ => loop parse_xml_to_dict children []
      end
  end.

(** *** Vocabulary of the statements about the parser *)

(** The values paired with the key [k], in order. *)
Definition values_for (k : string) (pairs : list (string * value))
  : list value :=
  snd <$> filter (λ kv, kv.1 = k) pairs.

(** What the values of the children that share a tag end up as: a single
    value as it is; several values as one list, which starts with the
    entries of the first value when that is itself a list. *)
Definition group (vs : list value) : option value :=
  match vs with
  | [] => None
  | [v] => Some v
  | v :: rest => Some (VList (as_list v ++ rest))
  end.

(** The distinct elements of a list, in the order of their first
    occurrences. *)
Fixpoint first_seen (l : list string) : list string :=
  match l with
  | [] => []
  | x :: l' => x :: filter (λ y, y ≠ x) (first_seen l')
  end.

(** The texts of the leaves of an element, in document order. *)
Fixpoint leaf_texts (e : element) : list (option string) :=
  match e with
  | Element _ text children =>
      match children with
      | [] => [text]
      | _ => mjoin (leaf_texts <$> children)
      end
  end.

(** The characters that [is_float] removes or counts as numeric in an
    ordinary numeral: digits, ["-"], [" "] and ["."]. *)
Definition plain_char (c : ascii) : bool :=
  is_digit c || bool_decide (c ∈ ["-"; " "; "."]%char).

(** The number of occurrences of a character. *)
Definition count (c : ascii) (l : list ascii) : nat :=
  length (filter (λ x, x = c) l).

Definition is_dict (v : value) : bool :=
  match v with VDict _ => true | _ => false end.

End Xml.
(** * Proofs

    ** List comprehensions *)
Section comprehension.
Context {A B : Type}.
Implicit Types (f : A → result B) (l : list A).

Lemma comprehension_Ok f l ls :
  Py.comprehension f l = Ok ls ↔ Forall2 (λ x y, f x = Ok y) l ls.
Proof.
  revert ls; induction l as [|a l IH]; intros ls; simpl.
  - split; [intros [= <-]; constructor | by inversion 1].
  - destruct (f a) as [b|e] eqn:Hfa; simpl.
    + destruct (Py.comprehension f l) as [bs|e] eqn:Hl; simpl.
      * split.
        -- intros [= <-]. constructor; [done | by apply IH].
        -- inversion 1 as [|? y ? ys Hy Hys]; subst.
           apply IH in Hys. congruence.
      * split; [done|].
        inversion 1 as [|? y ? ys Hy Hys]; subst.
        apply IH in Hys. congruence.
    + split; [done|]. inversion 1; congruence.
Qed.

Lemma comprehension_app f l1 l2 :
  Py.comprehension f (l1 ++ l2) =
    (a ← Py.comprehension f l1; b ← Py.comprehension f l2; Ok (a ++ b)).
Proof.
  induction l1 as [|x l1 IH]; simpl.
  - by destruct (Py.comprehension f l2).
  - destruct (f x); simpl; [|done]. rewrite IH.
    destruct (Py.comprehension f l1); simpl; [|done].
    by destruct (Py.comprehension f l2).
Qed.

Lemma comprehension_total f l :
  Forall (λ x, Py.returns (f x)) l → Py.returns (Py.comprehension f l).
Proof.
  induction 1 as [|x l [b Hb] _ [bs Hbs]]; simpl.
  - by eexists.
  - rewrite Hb, Hbs. by eexists.
Qed.
End comprehension.

Lemma comprehension_raises {A B} (f : A → result B) l err :
  Py.comprehension f l = Raise err → Exists (λ x, f x = Raise err) l.
Proof.
  induction l as [|x l IH]; [done|]. cbn [Py.comprehension].
  destruct (f x) as [b|e] eqn:Hx; cbn.
  - destruct (Py.comprehension f l) as [bs|e]; cbn; [done|].
    intros [= ->]. right. by apply IH.
  - intros [= ->]. by left.
Qed.

Lemma comprehension_Exists_raises {A B} (f : A → result B) l :
  Exists (λ x, Py.raises (f x)) l → Py.raises (Py.comprehension f l).
Proof.
  induction 1 as [x l [e He]|x l _ [e He]]; cbn [Py.comprehension].
  - rewrite He. by exists e.
  - destruct (f x) as [b|e']; cbn; [|by eexists].
    rewrite He. by exists e.
Qed.

Lemma comprehension_Forall2 {A A' B} (f : A → result B) (g : A' → result B) l k :
  Forall2 (λ x y, f x = g y) l k →
  Py.comprehension f l = Py.comprehension g k.
Proof. induction 1 as [|x y l k Hxy _ IH]; simpl; [done|]. by rewrite Hxy, IH. Qed.

(** ** Rib positions by intervals *)
Lemma length_intervals ws : length (intervals ws) = (length ws - 1)%nat.
Proof. unfold intervals. rewrite length_zip_with, length_drop. lia. Qed.

Lemma lookup_intervals ws i a b :
  intervals ws !! i = Some (a, b) ↔ ws !! i = Some a ∧ ws !! S i = Some b.
Proof.
  unfold intervals. rewrite lookup_zip_with_Some. rewrite lookup_drop. simpl.
  split.
  - intros (x & y & [= -> ->] & ? & ?). done.
  - intros [? ?]. by exists a, b.
Qed.

Lemma section_ribs_intervals ws ms :
  section_ribs ws ms = Py.comprehension (interval_samples ms) (intervals ws).
Proof.
  unfold section_ribs. apply comprehension_Forall2.
  apply Forall2_same_length_lookup_2.
  - unfold Py.enumerate, n_ribs, Np.subtract, Np.slice_from_1, Np.slice_to_last.
    rewrite length_intervals.
    rewrite !length_zip_with, length_seq, !length_fmap, !length_zip_with, length_drop, length_take. lia.
  - intros i [j n] [a b] Hen Hint.
    apply lookup_intervals in Hint as [Ha Hb].
    unfold Py.enumerate in Hen. apply lookup_zip_with_Some in Hen as (j' & n' & [= <- <-] & Hj & Hn).
    apply lookup_seq in Hj as [-> _]. simpl in Hn.
    unfold n_ribs in Hn. rewrite list_lookup_fmap in Hn.
    unfold Np.subtract, Np.slice_from_1, Np.slice_to_last in Hn.
    destruct (zip_with Qcminus (drop 1 ws) (take (length ws - 1) ws) !! i) as [d|] eqn:Hd; [|done].
    injection Hn as <-.
    apply lookup_zip_with_Some in Hd as (x & y & -> & Hx & Hy).
    rewrite lookup_drop in Hx. simpl in Hx. 
    apply lookup_take_Some in Hy as [Hy _].
    assert (x = b) as -> by congruence. assert (y = a) as -> by congruence.
    unfold section_rib, interval_samples, Py.index. simpl.
    rewrite Ha. replace (i + 1)%nat with (S i) by lia. rewrite Hb. done.
Qed.

(** ** Arithmetic of the rib count *)
Lemma int_Qc_of_Z z : Np.int (Np.Finite (Qc_of_Z z)) = Ok z.
Proof. simpl. by rewrite Z.quot_1_r. Qed.

Lemma int_add1_ceil d ms :
  ms ≠ 0 →
  Np.int (Np.add1 (Np.ceil (Np.true_divide d ms))) = Ok (Qceiling (d / ms)%Qc + 1)%Z.
Proof.
  intros Hms. unfold Np.true_divide. rewrite decide_False by done.
  cbn [Np.ceil Np.add1]. rewrite <-Z2Qc_inj_1, <-Z2Qc_inj_add.
  apply int_Qc_of_Z.
Qed.

Lemma Qceiling_pos (x : Qc) : 0 < x → (1 ≤ Qceiling x)%Z.
Proof.
  intros Hx. pose proof (Qle_ceiling x) as Hle.
  assert (0 < inject_Z (Qceiling x))%Q as H0.
  { eapply Qlt_le_trans; [exact Hx | exact Hle]. }
  change 0%Q with (inject_Z 0) in H0. rewrite <-Zlt_Qlt in H0. lia.
Qed.

Lemma Qcdiv_pos (x y : Qc) : 0 < x → 0 < y → 0 < x / y.
Proof.
  intros Hx Hy. unfold Qcdiv.
  rewrite <-(Qcmult_0_l (/ y)). apply Qcmult_lt_compat_r; [|done].
  destruct (Qclt_le_dec 0 (/ y)) as [|Hle]; [done|exfalso].
  assert (y * / y ≤ y * 0) as H1.
  { rewrite !(Qcmult_comm y). apply Qcmult_le_compat_r; [done|]. by apply Qclt_le_weak. }
  rewrite Qcmult_inv_r, Qcmult_0_r in H1 by (by apply not_symmetry, Qclt_not_eq).
  by apply (Qclt_not_le 0 1).
Qed.

Lemma Qceiling_zero_div (ms : Qc) : Qceiling (0 / ms)%Qc = 0%Z.
Proof. unfold Qcdiv. rewrite Qcmult_0_l. reflexivity. Qed.

(** ** [linspace] *)
Lemma length_arange num : length (Np.arange num) = Z.to_nat num.
Proof. unfold Np.arange. by rewrite length_fmap, length_seq. Qed.

Lemma arange_head num : (0 < num)%Z → Np.arange num !! 0%nat = Some 0.
Proof.
  intros Hnum. unfold Np.arange. rewrite list_lookup_fmap, lookup_seq_lt by lia.
  cbn [fmap option_fmap option_map]. f_equal. apply Z2Qc_inj_0.
Qed.

Lemma length_linspace_samples a b num : length (Np.linspace_samples a b num) = Z.to_nat num.
Proof.
  unfold Np.linspace_samples. rewrite length_fmap.
  repeat case_decide; by rewrite length_fmap, length_arange.
Qed.

Lemma linspace_samples_head a b num :
  (0 < num)%Z → Np.linspace_samples a b num !! 0%nat = Some a.
Proof.
  intros Hnum. unfold Np.linspace_samples. rewrite list_lookup_fmap.
  repeat case_decide; rewrite list_lookup_fmap, arange_head by done; simpl;
    f_equal; unfold Qcdiv; by rewrite !Qcmult_0_l, Qcplus_0_l.
Qed.

Lemma linspace_one a b : Np.linspace a b 1 = Ok [a].
Proof.
  unfold Np.linspace. rewrite decide_False, decide_False by lia.
  f_equal. pose proof (length_linspace_samples a b 1) as Hlen.
  pose proof (linspace_samples_head a b 1 ltac:(lia)) as Hhd.
  destruct (Np.linspace_samples a b 1) as [|x [|??]]; simplify_eq/=; done.
Qed.

Lemma linspace_endpoints a b num :
  (2 ≤ num)%Z →
  ∃ l, Np.linspace a b num = Ok l ∧ length l = Z.to_nat num
       ∧ l !! 0%nat = Some a ∧ last l = Some b.
Proof.
  intros Hnum. unfold Np.linspace.
  rewrite decide_False, decide_True by lia.
  pose proof (length_linspace_samples a b num) as Hlen.
  eexists; split; [done|]. rewrite length_insert. split; [done|]. split.
  - rewrite list_lookup_insert_ne by lia. apply linspace_samples_head. lia.
  - rewrite last_lookup, length_insert. 
    replace (Init.Nat.pred (length (Np.linspace_samples a b num))) with (length (Np.linspace_samples a b num) - 1)%nat by lia.
    apply list_lookup_insert_eq. lia.
Qed.

(** ** [unique] and endpoint preservation *)
Lemma elem_of_unique x l : x ∈ Np.unique l ↔ x ∈ l.
Proof.
  unfold Np.unique. rewrite merge_sort_Permutation. apply elem_of_remove_dups.
Qed.

Lemma NoDup_unique l : NoDup (Np.unique l).
Proof.
  unfold Np.unique. rewrite merge_sort_Permutation. apply NoDup_remove_dups.
Qed.

Lemma interval_samples_increasing ms a b :
  0 < ms → a < b →
  ∃ l, interval_samples ms (a, b) = Ok l ∧ a ∈ l ∧ b ∈ l.
Proof.
  intros Hms Hab. unfold interval_samples. cbn [fst snd].
  rewrite int_add1_ceil by (by apply not_symmetry, Qclt_not_eq).
  cbn [mbind result_bind].
  assert (0 < b - a) as Hd.
  { unfold Qcminus. by apply Qclt_minus_iff in Hab. }
  pose proof (Qceiling_pos _ (Qcdiv_pos _ _ Hd Hms)) as Hn.
  destruct (linspace_endpoints a b (Qceiling ((b - a) / ms)%Qc + 1)) as (l & -> & _ & Hhd & Hlast);
    [lia|].
  exists l. split; [done|]. split.
  - by eapply list_elem_of_lookup_2.
  - rewrite last_lookup in Hlast. by eapply list_elem_of_lookup_2.
Qed.

Lemma interval_samples_degenerate ms s :
  ms ≠ 0 → interval_samples ms (s, s) = Ok [s].
Proof.
  intros Hms. unfold interval_samples. cbn [fst snd].
  rewrite int_add1_ceil by done.
  replace (s - s) with 0 by ring. rewrite Qceiling_zero_div.
  cbn [mbind result_bind]. apply linspace_one.
Qed.

Lemma intervals_cons a b l : intervals (a :: b :: l) = (a, b) :: intervals (b :: l).
Proof. reflexivity. Qed.

Lemma Sorted_intervals ws :
  Sorted Qclt ws → Forall (λ ab, ab.1 < ab.2) (intervals ws).
Proof.
  induction 1 as [|a l Hl IH Hhd]; [constructor|].
  destruct Hhd as [|b l Hab]; [constructor|].
  rewrite intervals_cons. by constructor.
Qed.

Lemma comprehension_Forall {A B} (f : A → result B) (P : A → B → Prop) l :
  Forall (λ x, ∃ y, f x = Ok y ∧ P x y) l →
  ∃ ls, Py.comprehension f l = Ok ls ∧ Forall2 P l ls.
Proof.
  induction 1 as [|x l (y & Hy & HP) _ (ls & Hls & HF)]; simpl.
  - exists []. by split.
  - rewrite Hy, Hls. exists (y :: ls). split; [done|]. by constructor.
Qed.

Lemma rib_positions_intervals ws ms :
  rib_positions ws ms =
    (sections ← Py.comprehension (interval_samples ms) (intervals ws);
     all ← Np.concatenate sections; Ok (Np.unique all)).
Proof. unfold rib_positions. by rewrite section_ribs_intervals. Qed.

Lemma sections_increasing ws ms :
  Sorted Qclt ws → 0 < ms →
  ∃ sections,
    Py.comprehension (interval_samples ms) (intervals ws) = Ok sections
    ∧ Forall2 (λ ab l, ab.1 ∈ l ∧ ab.2 ∈ l) (intervals ws) sections.
Proof.
  intros Hsorted Hms. apply comprehension_Forall.
  eapply Forall_impl; [by apply Sorted_intervals|].
  intros [a b] Hab. by apply interval_samples_increasing.
Qed.

Lemma concatenate_Ok sections all :
  Np.concatenate sections = Ok all ↔ sections ≠ [] ∧ all = mjoin sections.
Proof.
  destruct sections; simpl; split; try done.
  - by intros [? _].
  - by intros [= <-].
  - by intros [_ ->].
Qed.

(** In exact arithmetic, for strictly increasing stations and a positive
    [max_spacing], [rib_positions] returns as soon as there are two
    stations, and every station is, itself, one of the positions it
    returns: this is what sampling each interval with [np.linspace] is
    meant to ensure.  (In binary64 the quotient of line 189 can
    underflow or overflow: see the module [F64Facts].) *)
Lemma exact_endpoint_preservation ws ms :
  Sorted Qclt ws → 0 < ms →
  ((2 ≤ length ws)%nat → Py.returns (rib_positions ws ms))
  ∧ (∀ ps, rib_positions ws ms = Ok ps → ∀ s, s ∈ ws → s ∈ ps).
Proof.
  intros Hsorted Hms. rewrite rib_positions_intervals.
  destruct (sections_increasing ws ms Hsorted Hms) as (sections & -> & Hends).
  cbn [mbind result_bind].
  pose proof (Forall2_length _ _ _ Hends) as Hlen. rewrite length_intervals in Hlen.
  split.
  - intros Hws. destruct sections as [|l sections]; simpl in *; [lia|]. by eexists.
  - intros ps Hps s Hs.
    destruct (Np.concatenate sections) as [all|] eqn:Hall; [|done].
    injection Hps as <-. apply concatenate_Ok in Hall as [Hne ->].
    apply elem_of_unique, list_elem_of_join.
    apply list_elem_of_lookup in Hs as [i Hi].
    assert (0 < length sections)%nat by (destruct sections; simpl; [done|lia]).
    pose proof (lookup_lt_Some _ _ _ Hi) as Hilt.
    destruct (decide (S i < length ws)%nat) as [Hlt|Hge].
    + destruct (lookup_lt_is_Some_2 ws (S i) Hlt) as [b Hb].
      assert (intervals ws !! i = Some (s, b)) as Hint by by apply lookup_intervals.
      destruct (Forall2_lookup_l _ _ _ _ _ Hends Hint) as (l & Hl & Hin & _).
      exists l. split; [done|]. by eapply list_elem_of_lookup_2.
    + destruct i as [|i]; [lia|].
      destruct (lookup_lt_is_Some_2 ws i ltac:(lia)) as [a Ha].
      assert (intervals ws !! i = Some (a, s)) as Hint by by apply lookup_intervals.
      destruct (Forall2_lookup_l _ _ _ _ _ Hends Hint) as (l & Hl & _ & Hin).
      exists l. split; [done|]. by eapply list_elem_of_lookup_2.
Qed.

(** ** Degenerate intervals *)
Lemma intervals_app l1 x l2 :
  intervals (l1 ++ x :: l2) = intervals (l1 ++ [x]) ++ intervals (x :: l2).
Proof.
  induction l1 as [|a l1 IH]; [done|].
  destruct l1 as [|b l1]; [done|].
  change (intervals ((a :: b :: l1) ++ x :: l2))
    with ((a, b) :: intervals ((b :: l1) ++ x :: l2)).
  rewrite IH. done.
Qed.

(** C9: around two equal consecutive stations [s], [s] (and a nonzero
    [max_spacing]) nothing fails: the interval has [n = 0], its only
    sample is [s], and the positions of the whole span are [s] together
    with the samples [A], [B] of the other intervals, without
    repetition. *)
Theorem degenerate_interval pre s post ms A B :
  ms ≠ 0 →
  section_ribs (pre ++ [s]) ms = Ok A →
  section_ribs (s :: post) ms = Ok B →
  n_ribs [s; s] ms = [Np.Finite 0]
  ∧ section_ribs [s; s] ms = Ok [[s]]
  ∧ section_ribs (pre ++ s :: s :: post) ms = Ok (A ++ [s] :: B)
  ∧ ∃ ps, rib_positions (pre ++ s :: s :: post) ms = Ok ps
          ∧ NoDup ps
          ∧ ∀ x, x ∈ ps ↔ x = s ∨ x ∈ mjoin A ∨ x ∈ mjoin B.
Proof.
  intros Hms HA HB.
  assert (section_ribs (pre ++ s :: s :: post) ms = Ok (A ++ [s] :: B)) as Hall.
  { rewrite section_ribs_intervals in *.
    rewrite intervals_app, intervals_cons, comprehension_app, HA.
    cbn [Py.comprehension mbind result_bind].
    by rewrite interval_samples_degenerate, HB. }
  split; [|split; [|split; [done|]]].
  - change (n_ribs [s; s] ms) with [Np.ceil (Np.true_divide (s - s) ms)].
    unfold Np.true_divide. rewrite decide_False by done.
    replace (s - s) with 0 by ring. cbn [Np.ceil].
    by rewrite Qceiling_zero_div, Z2Qc_inj_0.
  - rewrite section_ribs_intervals. cbn. by rewrite interval_samples_degenerate.
  - unfold rib_positions. rewrite Hall. cbn [mbind result_bind].
    destruct (Np.concatenate (A ++ [s] :: B)) as [all|] eqn:Hcat.
    2:{ by destruct A. }
    apply concatenate_Ok in Hcat as [_ ->].
    eexists; split; [done|]. split; [apply NoDup_unique|].
    intros x. rewrite elem_of_unique, join_app, elem_of_app. cbn [mjoin list_join].
    rewrite elem_of_app, list_elem_of_singleton. tauto.
Qed.

(** ** Aggregation of point masses *)
Lemma vadd_comm a b : vadd a b = vadd b a.
Proof. unfold vadd. f_equal; ring. Qed.
Lemma vadd_assoc a b c : vadd a (vadd b c) = vadd (vadd a b) c.
Proof. unfold vadd. simpl. f_equal; ring. Qed.
Lemma vadd_zero_l a : vadd vzero a = a.
Proof. destruct a. unfold vadd. simpl. f_equal; ring. Qed.

Lemma foldl_Qcplus a xs : foldl Qcplus a xs = a + total xs.
Proof.
  revert a; induction xs as [|x xs IH]; intros a; simpl.
  - ring.
  - rewrite IH. ring.
Qed.

Lemma foldl_vadd a vs : foldl vadd a vs = vadd a (vtotal vs).
Proof.
  revert a; induction vs as [|v vs IH]; intros a; simpl.
  - destruct a. unfold vadd. simpl. f_equal; ring.
  - by rewrite IH, vadd_assoc.
Qed.

Lemma py_sum_total xs : py_sum xs = total xs.
Proof. unfold py_sum. rewrite foldl_Qcplus. ring. Qed.

Lemma total_Permutation xs ys : xs ≡ₚ ys → total xs = total ys.
Proof.
  induction 1 as [|x xs ys _ IH|x y xs|xs ys zs _ IH1 _ IH2]; simpl.
  - done.
  - by rewrite IH.
  - ring.
  - congruence.
Qed.

Lemma vtotal_Permutation vs ws : vs ≡ₚ ws → vtotal vs = vtotal ws.
Proof.
  induction 1 as [|x xs ys _ IH|x y xs|xs ys zs _ IH1 _ IH2]; simpl.
  - done.
  - by rewrite IH.
  - by rewrite !vadd_assoc, (vadd_comm y x).
  - congruence.
Qed.

Section aggregate.
Context `{Collaborators}.

Lemma sum_axis0_cons v vs : sum_axis0 (v :: vs) = inr (vtotal (v :: vs)).
Proof. unfold sum_axis0. by rewrite foldl_vadd, vadd_zero_l. Qed.

Lemma aggregate_nil tag :
  aggregate tag [] =
    (c ← SpatialArray (Np.Scalar Np.NaN);
     Ok {| mass := 0; coordinates := c; tag := tag |}).
Proof. reflexivity. Qed.

Lemma aggregate_cons tag pm pms :
  let M := total (mass <$> pm :: pms) in
  let W := vtotal (weighted <$> pm :: pms) in
  aggregate tag (pm :: pms) =
    (c ← SpatialArray (Np.Array1 [Np.true_divide (vx W) M;
                                  Np.true_divide (vy W) M;
                                  Np.true_divide (vz W) M]);
     Ok {| mass := M; coordinates := c; tag := tag |}).
Proof.
  intros M W. unfold aggregate.
  rewrite py_sum_total.
  change ((λ pm0, vscale (mass pm0) (coordinates pm0)) <$> pm :: pms)
    with (weighted pm :: (weighted <$> pms)).
  by rewrite sum_axis0_cons.
Qed.

(** C7: the aggregation gives the same point mass for a sequence and for
    any permutation of it. *)
Theorem aggregate_Permutation tag pms pms' :
  pms ≡ₚ pms' → aggregate tag pms = aggregate tag pms'.
Proof.
  intros Hperm. destruct pms as [|pm pms], pms' as [|pm' pms'].
  - done.
  - by apply Permutation_nil_cons in Hperm.
  - symmetry in Hperm. by apply Permutation_nil_cons in Hperm.
  - rewrite !aggregate_cons.
    rewrite (total_Permutation _ _ (fmap_Permutation mass _ _ Hperm)).
    by rewrite (vtotal_Permutation _ _ (fmap_Permutation weighted _ _ Hperm)).
Qed.

(** C3 (amended): over no element at all, [mass] checks nothing and
    raises nothing of its own: the total is [0], the quotient [0.0 / 0]
    is [nan], and the outcome is that of the constructor [SpatialArray]
    on this [nan]: a point mass of mass [0] with the constructed
    coordinates and the name of the surface if the constructor returns,
    and the exception of the constructor if it raises.  ([SpatialArray]
    is not among the sources; the statement holds for every
    constructor.) *)
Theorem empty_structure_mass st :
  spars st = [] → ribs st = [] → coatings st = [] →
  SurfaceStructure_mass st =
    (c ← SpatialArray (Np.Scalar Np.NaN);
     Ok {| mass := 0; coordinates := c; tag := surface_name (surface st) |}).
Proof.
  intros Hs Hr Hc. unfold SurfaceStructure_mass, collect_masses.
  rewrite Hs, Hr, Hc. apply aggregate_nil.
Qed.
End aggregate.

(** ** The cache of a coating *)
Module CoatingFacts.
Import Coating CoatingTrace.
Section Facts.
Context `{Collaborators}.

(** Reads of a coating whose pair is in the cache. *)
Lemma centroid_area_cached w v :
  cache (self w) = Some v → _centroid_area w = (v, w).
Proof. intros Hc. unfold _centroid_area. by rewrite Hc. Qed.

Lemma centroid_cached w v : cache (self w) = Some v → centroid w = (v.1, w).
Proof. intros Hc. unfold centroid, bind. by rewrite (centroid_area_cached w v). Qed.

Lemma area_cached w v : cache (self w) = Some v → area w = (v.2, w).
Proof. intros Hc. unfold area, bind. by rewrite (centroid_area_cached w v). Qed.

Lemma mass_cached w v :
  cache (self w) = Some v →
  mass w = (Build_PointMass
              (v.2 * coat_thickness (self w) * density (coat_material (self w)))
              v.1 "SurfaceCoating", w).
Proof.
  intros Hc. unfold mass, bind.
  by rewrite (area_cached w v), (centroid_cached w v).
Qed.

(** The first read of a coating whose cache is empty. *)
Lemma centroid_area_fresh w :
  cache (self w) = None →
  _centroid_area w
    = (surface_centroid_area (mesh (coat_surface (self w))), filled w).
Proof. intros Hc. unfold _centroid_area. by rewrite Hc. Qed.

Lemma step_cached a w v :
  cache (self w) = Some v →
  ∃ o c', step a w = (o, {| self := c'; calls := calls w |})
      ∧ cache c' = Some v
      ∧ coat_thickness c' = coat_thickness (self w)
      ∧ coat_material c' = coat_material (self w)
      ∧ view_of v (coat_thickness (self w)) (coat_material (self w)) o.
Proof.
  intros Hc. destruct a; unfold step, bind, ret.
  - rewrite (centroid_cached w v Hc). destruct w. by eexists _, _.
  - rewrite (area_cached w v Hc). destruct w. by eexists _, _.
  - rewrite (mass_cached w v Hc). destruct w. by eexists _, _.
  - by eexists _, _.
Qed.

Lemma run_cons a ops w :
  run (a :: ops) w =
    ((step a w).1 :: (run ops (step a w).2).1, (run ops (step a w).2).2).
Proof.
  cbn [run]. unfold bind, ret. destruct (step a w) as [o w1]. cbn [fst snd].
  by destruct (run ops w1).
Qed.

Lemma run_cached ops w v :
  cache (self w) = Some v →
  ∃ c', (run ops w).2 = {| self := c'; calls := calls w |}
      ∧ cache c' = Some v
      ∧ Forall (view_of v (coat_thickness (self w)) (coat_material (self w)))
          (run ops w).1.
Proof.
  revert w; induction ops as [|a ops IH]; intros w Hc.
  - destruct w as [c n]. exists c. by repeat split.
  - destruct (step_cached a w v Hc) as (o & c1 & Hstep & Hc1 & Hth & Hmat & Hview).
    destruct (IH {| self := c1; calls := calls w |} Hc1) as (c2 & Hrun & Hc2 & Hviews).
    cbn [self calls] in *. rewrite Hth, Hmat in Hviews.
    rewrite run_cons, Hstep. cbn [fst snd].
    exists c2. split; [done|]. split; [done|]. by constructor.
Qed.

(** A read fills an empty cache from the mesh the surface holds then. *)
Lemma step_fresh_read a w :
  cache (self w) = None → is_read a = true →
  let v := surface_centroid_area (mesh (coat_surface (self w))) in
  ∃ o, step a w = (o, filled w)
     ∧ view_of v (coat_thickness (self w)) (coat_material (self w)) o.
Proof.
  intros Hc Hr v.
  assert (cache (self (filled w)) = Some v) as Hf by done.
  destruct a; [| | |done]; unfold step, bind, ret.
  - unfold centroid, bind, ret. rewrite centroid_area_fresh by done. by eexists.
  - unfold area, bind, ret. rewrite centroid_area_fresh by done. by eexists.
  - unfold mass, bind, ret, area, bind, ret. rewrite centroid_area_fresh by done.
    rewrite (centroid_cached _ v Hf). by eexists.
Qed.

(** C8: whatever properties of a freshly constructed coating are read, in
    whatever order and however the surface's arrays are reassigned in
    between, [surface_centroid_area] runs at most once (exactly once if
    anything is read), its value is what the cache then holds, and every
    centroid, area and mass read is a view of that one pair. *)
Theorem coating_cache surface thickness material ops :
  let w0 := {| self := init surface thickness material; calls := 0 |} in
  let v := surface_centroid_area (mesh_at_first_read ops (mesh surface)) in
  let obs := (run ops w0).1 in
  let w := (run ops w0).2 in
  (calls w ≤ 1)%nat
  ∧ calls w = (if existsb is_read ops then 1 else 0)%nat
  ∧ cache (self w) = (if existsb is_read ops then Some v else None)
  ∧ Forall (view_of v thickness material) obs.
Proof.
  cbv zeta.
  cut (∀ c, cache c = None →
    let w0 := {| self := c; calls := 0 |} in
    let v := surface_centroid_area (mesh_at_first_read ops (mesh (coat_surface c))) in
    calls (run ops w0).2 = (if existsb is_read ops then 1 else 0)%nat
    ∧ cache (self (run ops w0).2) = (if existsb is_read ops then Some v else None)
    ∧ Forall (view_of v (coat_thickness c) (coat_material c)) (run ops w0).1).
  { intros Hcut. destruct (Hcut (init surface thickness material) eq_refl) as (Hn & Hc & Hv).
    split; [|done]. rewrite Hn. destruct (existsb is_read ops); lia. }
  induction ops as [|a ops IH]; intros c Hc; cbv zeta.
  - by repeat split.
  - destruct (is_read a) eqn:Hr.
    + destruct (step_fresh_read a {| self := c; calls := 0 |} Hc Hr) as (o & Hstep & Hview).
      cbn [self calls] in *.
      set (v := surface_centroid_area (mesh (coat_surface c))) in *.
      assert (mesh_at_first_read (a :: ops) (mesh (coat_surface c)) = mesh (coat_surface c)) as ->
        by by destruct a.
      fold v.
      destruct (run_cached ops (filled {| self := c; calls := 0 |}) v eq_refl)
        as (c2 & Hrun & Hc2 & Hviews).
      cbn [existsb]. rewrite Hr. cbn [orb]. rewrite run_cons, Hstep.
      cbn [fst snd]. rewrite Hrun. cbn [self calls filled].
      split; [done|]. split; [done|]. by constructor.
    + destruct a as [| | |m]; try done.
      specialize (IH (set_mesh c m) Hc). cbv zeta in IH.
      cbn [existsb is_read orb mesh_at_first_read]. rewrite run_cons.
      cbn [step fst snd self calls].
      destruct IH as (Hn & Hcache & Hviews).
      split; [done|]. split; [done|]. by constructor.
Qed.
End Facts.
End CoatingFacts.

(** ** Construction of the model *)
Section construction.
Context `{C : Collaborators}.

Lemma build_structures_comprehension cfg surfs acc :
  build_structures cfg surfs acc =
    (sts ← Py.comprehension (build_structure cfg) surfs; Ok (acc ++ sts)).
Proof.
  revert acc; induction surfs as [|s surfs IH]; intros acc;
    cbn [build_structures Py.comprehension].
  - cbn. by rewrite app_nil_r.
  - unfold build_structure in *.
    destruct (cfg !! surface_type s) as [c|]; cbn [from_option mbind result_bind]; [|done].
    destruct (initialize_structure (SurfaceStructure_init s c)) as [st|];
      cbn [mbind result_bind]; [|done].
    rewrite IH. destruct (Py.comprehension _ surfs);
      cbn [mbind result_bind]; [|done].
    by rewrite <-app_assoc.
Qed.

Lemma StructuralModel_init_Ok aircraft cfg model :
  StructuralModel_init aircraft cfg = Ok model ↔
  ∃ sts, Forall2 (λ s st, build_structure cfg s = Ok st) (surfaces aircraft) sts
         ∧ model = {| aircraft := aircraft; configuration := cfg;
                      structures := sts; ext_spars := [] |}.
Proof.
  unfold StructuralModel_init. rewrite build_structures_comprehension.
  destruct (Py.comprehension (build_structure cfg) (surfaces aircraft)) as [sts|e] eqn:Hc; simpl.
  - apply comprehension_Ok in Hc. split.
    + intros [= <-]. by exists sts.
    + intros (sts' & Hsts' & ->). apply comprehension_Ok in Hsts', Hc. congruence.
  - split; [done|]. intros (sts' & Hsts' & _). apply comprehension_Ok in Hsts'. congruence.
Qed.

Lemma build_structure_Ok cfg s st :
  build_structure cfg s = Ok st ↔
  ∃ c, cfg !! surface_type s = Some c
       ∧ initialize_structure (SurfaceStructure_init s c) = Ok st.
Proof.
  unfold build_structure. destruct (cfg !! surface_type s) as [c|]; simpl.
  - split; [by exists c | by intros (? & [= <-] & ?)].
  - split; [done | by intros (? & ? & ?)].
Qed.

Lemma comprehension_first_failure {A B} (f : A → result B) pre x post e :
  Forall (λ y, Py.returns (f y)) pre → f x = Raise e →
  Py.comprehension f (pre ++ x :: post) = Raise e.
Proof.
  intros Hpre Hx. rewrite comprehension_app.
  destruct (comprehension_total f pre Hpre) as [bs ->]. simpl. by rewrite Hx.
Qed.

(** C6 (amended): [StructuralModel.__init__] raises, and so returns no
    model, when some surface type has no configuration entry.  The
    exception is that of the first surface, in the order of the
    aircraft, that cannot be built: the [KeyError] of
    [configuration[surface_type]] for a surface without entry, and the
    exception of [initialize_structure] for a surface whose structure
    cannot be initialised.  When the constructor returns, the model
    holds, in the order of the surfaces, one structure per surface, each
    the initialised structure of its configuration entry; and it returns
    when every surface can be built. *)
Theorem model_construction geometry cfg :
  (∀ s, s ∈ surfaces geometry → cfg !! surface_type s = None →
        Py.raises (StructuralModel_init geometry cfg))
  ∧ (∀ pre s post e,
        surfaces geometry = pre ++ s :: post →
        Forall (λ s', Py.returns (build_structure cfg s')) pre →
        build_structure cfg s = Raise e →
        StructuralModel_init geometry cfg = Raise e)
  ∧ (∀ s, cfg !! surface_type s = None →
        build_structure cfg s = Raise KeyError)
  ∧ (∀ s c, cfg !! surface_type s = Some c →
        build_structure cfg s
          = initialize_structure (SurfaceStructure_init s c))
  ∧ (∀ model, StructuralModel_init geometry cfg = Ok model →
        aircraft model = geometry
        ∧ configuration model = cfg
        ∧ Forall2 (λ s st, ∃ c, cfg !! surface_type s = Some c
                     ∧ initialize_structure (SurfaceStructure_init s c) = Ok st)
            (surfaces geometry) (structures model))
  ∧ (Forall (λ s, Py.returns (build_structure cfg s)) (surfaces geometry) →
        Py.returns (StructuralModel_init geometry cfg)).
Proof.
  assert (∀ model, StructuralModel_init geometry cfg = Ok model →
    aircraft model = geometry ∧ configuration model = cfg
    ∧ Forall2 (λ s st, ∃ c, cfg !! surface_type s = Some c
                 ∧ initialize_structure (SurfaceStructure_init s c) = Ok st)
        (surfaces geometry) (structures model)) as Hok.
  { intros model (sts & Hsts & ->)%StructuralModel_init_Ok.
    split; [done|]. split; [done|]. cbn [structures].
    eapply Forall2_impl; [exact Hsts|]. intros s st. by rewrite build_structure_Ok. }
  split; [|split; [|split; [|split; [|split; [exact Hok|]]]]].
  - intros s Hs Hnone.
    destruct (StructuralModel_init geometry cfg) as [model|e] eqn:Hinit; [|by exists e].
    destruct (Hok model eq_refl) as (_ & _ & Hall).
    apply list_elem_of_lookup in Hs as [i Hi].
    destruct (Forall2_lookup_l _ _ _ _ _ Hall Hi) as (st & _ & c & Hc & _).
    congruence.
  - intros pre s post e Hsurf Hpre He.
    unfold StructuralModel_init. rewrite build_structures_comprehension, Hsurf.
    by rewrite (comprehension_first_failure _ pre s post e).
  - intros s Hnone. unfold build_structure. by rewrite Hnone.
  - intros s c Hc. unfold build_structure. by rewrite Hc.
  - intros Hall. unfold StructuralModel_init.
    rewrite build_structures_comprehension.
    destruct (comprehension_total _ _ Hall) as [sts ->]. by eexists.
Qed.
End construction.

(** ** Falsy configuration keys *)
Section falsy_keys.
Context `{C : Collaborators}.

Lemma respects_bind c0 c' f g :
  respects c0 c' f → respects c0 c' g → respects c0 c' (λ st, f st ≫= g).
Proof.
  intros Hf Hg st Hst. destruct (Hf st Hst) as [Hf1 Hf2]. rewrite Hf1.
  destruct (f st) as [st1|e]; cbn; [|done].
  destruct (Hg st1 (Hf2 st1 eq_refl)) as [Hg1 Hg2]. done.
Qed.

Lemma when_configured_respects c0 c' key body :
  appends body →
  (c' !! key = c0 !! key
   ∨ c' !! key = None ∧ ∃ v, c0 !! key = Some v ∧ truthy v = false) →
  respects c0 c' (when_configured key body).
Proof.
  intros Hbody Hkey st Hst. unfold when_configured. cbn [config set_config].
  rewrite Hst. split.
  - destruct Hkey as [->|(-> & v & -> & ->)]; [|done].
    destruct (c0 !! key) as [v|]; [|done].
    destruct (truthy v); [|done].
    destruct (unpack v) as [kw|]; cbn; [|done]. apply Hbody.
  - intros st'. destruct (c0 !! key) as [v|]; [|by intros [= <-]].
    destruct (truthy v); [|by intros [= <-]].
    destruct (unpack v) as [kw|]; cbn; [|done].
    intros Hb. rewrite <-Hst. by eapply Hbody.
Qed.

Lemma foldl_add_rib_set_config c' st l :
  foldl add_rib (set_config c' st) l = set_config c' (foldl add_rib st l).
Proof. revert st; induction l as [|r l IH]; intros st; [done|]. cbn. by rewrite <-IH. Qed.

Lemma config_foldl_add_rib st l : config (foldl add_rib st l) = config st.
Proof. revert st; induction l as [|r l IH]; intros st; [done|]. cbn. by rewrite IH. Qed.

Lemma appends_spar (f : GeometricSurface → gmap string kwval → result StructuralSpar) :
  appends (λ st kw, spar ← f (surface st) kw; Ok (add_spar st spar)).
Proof.
  intros st kw. split.
  - intros c'. cbn [surface set_config]. by destruct (f (surface st) kw).
  - intros st'. destruct (f (surface st) kw); cbn; [|done]. by intros [= <-].
Qed.

Lemma appends_ribs :
  appends (λ st kw, calculated_ribs ← call_calculate_ribs (surface st) kw;
                    Ok (foldl add_rib st calculated_ribs)).
Proof.
  intros st kw. split.
  - intros c'. cbn [surface set_config].
    destruct (call_calculate_ribs (surface st) kw); cbn; [|done].
    by rewrite foldl_add_rib_set_config.
  - intros st'. destruct (call_calculate_ribs (surface st) kw); cbn; [|done].
    intros [= <-]. apply config_foldl_add_rib.
Qed.

Lemma appends_coating :
  appends (λ st kw, coating ← call_SurfaceCoating (surface st) kw;
                    Ok (add_coating st coating)).
Proof.
  intros st kw. split.
  - intros c'. cbn [surface set_config].
    by destruct (call_SurfaceCoating (surface st) kw).
  - intros st'. destruct (call_SurfaceCoating (surface st) kw); cbn; [|done].
    by intros [= <-].
Qed.

Lemma initialize_structure_respects c0 c' :
  (∀ key, key ∈ ["main_spar"; "secondary_spar"; "ribs"; "surface_coating"] →
     c' !! key = c0 !! key
     ∨ c' !! key = None ∧ ∃ v, c0 !! key = Some v ∧ truthy v = false) →
  respects c0 c' initialize_structure.
Proof.
  intros Hkeys. unfold initialize_structure.
  repeat apply respects_bind;
    apply when_configured_respects;
    auto using appends_spar, appends_ribs, appends_coating;
    apply Hkeys; set_solver.
Qed.

Lemma when_configured_falsy key body st v :
  config st !! key = Some v → truthy v = false →
  when_configured key body st = Ok st.
Proof. intros Hv Hf. unfold when_configured. by rewrite Hv, Hf. Qed.

Lemma when_configured_config key body st st' :
  appends body → when_configured key body st = Ok st' → config st' = config st.
Proof.
  intros Hbody. unfold when_configured.
  destruct (config st !! key) as [v|]; [|by intros [= <-]].
  destruct (truthy v); [|by intros [= <-]].
  destruct (unpack v) as [kw|]; cbn; [|done]. apply Hbody.
Qed.
End falsy_keys.

Lemma initialize_structure_main_spar_unused (C : Collaborators) f st v :
  config st !! "main_spar" = Some v → truthy v = false →
  @initialize_structure (with_create_main_spar f C) st = @initialize_structure C st.
Proof.
  intros Hv Hf. unfold initialize_structure.
  by rewrite !(when_configured_falsy "main_spar" _ st v Hv Hf).
Qed.

Lemma initialize_structure_spar_unused (C : Collaborators) f st v :
  config st !! "secondary_spar" = Some v → truthy v = false →
  @initialize_structure (with_create_spar f C) st = @initialize_structure C st.
Proof.
  intros Hv Hf. unfold initialize_structure.
  change (@create_main_spar (with_create_spar f C)) with (@create_main_spar C).
  destruct (when_configured "main_spar" _ st) as [st1|e] eqn:H1; [|done].
  apply when_configured_config in H1; [|apply appends_spar].
  cbn [mbind result_bind]. rewrite <-H1 in Hv.
  by rewrite !(when_configured_falsy "secondary_spar" _ st1 v Hv Hf).
Qed.

Section untouched.
Context `{C : Collaborators}.

Lemma when_configured_inv (R : relation SurfaceStructure) key body st st' :
  Reflexive R →
  (∀ st kw st', body st kw = Ok st' → R st st') →
  when_configured key body st = Ok st' → R st st'.
Proof.
  intros HR Hbody. unfold when_configured.
  destruct (config st !! key) as [v|]; [|by intros [= <-]].
  destruct (truthy v); [|by intros [= <-]].
  destruct (unpack v) as [kw|]; cbn; [|done]. apply Hbody.
Qed.

Lemma same_ribs_refl : Reflexive same_ribs.
Proof. by intros st. Qed.
Lemma same_coatings_refl : Reflexive same_coatings.
Proof. by intros st. Qed.

Lemma spar_body_same (f : GeometricSurface → gmap string kwval → result StructuralSpar)
    st kw st' :
  (spar ← f (surface st) kw; Ok (add_spar st spar)) = Ok st' →
  same_ribs st st' ∧ same_coatings st st'.
Proof. destruct (f (surface st) kw); cbn; [|done]. by intros [= <-]. Qed.

Lemma ribs_body_same st kw st' :
  (calculated_ribs ← call_calculate_ribs (surface st) kw;
   Ok (foldl add_rib st calculated_ribs)) = Ok st' →
  same_coatings st st'.
Proof.
  destruct (call_calculate_ribs (surface st) kw) as [l|]; cbn; [|done].
  intros [= <-]. split; [apply config_foldl_add_rib|].
  clear. revert st. induction l as [|r l IH]; intros st; [done|].
  cbn. by rewrite IH.
Qed.

Lemma coating_body_same st kw st' :
  (coating ← call_SurfaceCoating (surface st) kw;
   Ok (add_coating st coating)) = Ok st' →
  same_ribs st st'.
Proof. destruct (call_SurfaceCoating (surface st) kw); cbn; [|done]. by intros [= <-]. Qed.

Lemma falsy_ribs_untouched st v st' :
  config st !! "ribs" = Some v → truthy v = false →
  initialize_structure st = Ok st' → ribs st' = ribs st.
Proof.
  intros Hv Hf. unfold initialize_structure.
  destruct (when_configured "main_spar" _ st) as [st1|] eqn:H1; [|done].
  apply (when_configured_inv same_ribs) in H1 as [Hc1 Hr1];
    [|apply same_ribs_refl|intros ???; apply spar_body_same].
  cbn [mbind result_bind].
  destruct (when_configured "secondary_spar" _ st1) as [st2|] eqn:H2; [|done].
  apply (when_configured_inv same_ribs) in H2 as [Hc2 Hr2];
    [|apply same_ribs_refl|intros ???; apply spar_body_same].
  cbn [mbind result_bind].
  rewrite (when_configured_falsy "ribs" _ st2 v) by congruence.
  cbn [mbind result_bind]. intros H4.
  apply (when_configured_inv same_ribs) in H4 as [Hc4 Hr4];
    [|apply same_ribs_refl|intros ???; apply coating_body_same].
  congruence.
Qed.

Lemma falsy_coating_untouched st v st' :
  config st !! "surface_coating" = Some v → truthy v = false →
  initialize_structure st = Ok st' → coatings st' = coatings st.
Proof.
  intros Hv Hf. unfold initialize_structure.
  destruct (when_configured "main_spar" _ st) as [st1|] eqn:H1; [|done].
  apply (when_configured_inv same_coatings) in H1 as [Hc1 Hr1];
    [|apply same_coatings_refl|intros ???; apply spar_body_same].
  cbn [mbind result_bind].
  destruct (when_configured "secondary_spar" _ st1) as [st2|] eqn:H2; [|done].
  apply (when_configured_inv same_coatings) in H2 as [Hc2 Hr2];
    [|apply same_coatings_refl|intros ???; apply spar_body_same].
  cbn [mbind result_bind].
  destruct (when_configured "ribs" _ st2) as [st3|] eqn:H3; [|done].
  apply (when_configured_inv same_coatings) in H3 as [Hc3 Hr3];
    [|apply same_coatings_refl|intros ???; apply ribs_body_same].
  cbn [mbind result_bind].
  rewrite (when_configured_falsy "surface_coating" _ st3 v) by congruence.
  intros [= <-]. congruence.
Qed.
End untouched.

(** C10: a key of [main_spar], [secondary_spar], [ribs], [surface_coating]
    that is bound to a falsy value (an empty dictionary, [None], [0], ...)
    is treated like an absent key: [initialize_structure] has the outcome
    it has with the key deleted, the outcome does not depend on the spar
    factory of that key, and a falsy [ribs] or [surface_coating] entry
    leaves the ribs or the coatings as they were. *)
Theorem falsy_key_like_absent (C : Collaborators) st key v :
  key ∈ ["main_spar"; "secondary_spar"; "ribs"; "surface_coating"] →
  config st !! key = Some v → truthy v = false →
  let absent := delete key (config st) in
  initialize_structure (set_config absent st)
    = set_config absent <$> initialize_structure st
  ∧ (key = "main_spar" → ∀ f,
       @initialize_structure (with_create_main_spar f C) st
         = initialize_structure st)
  ∧ (key = "secondary_spar" → ∀ f,
       @initialize_structure (with_create_spar f C) st
         = initialize_structure st)
  ∧ (key = "ribs" → ∀ st',
       initialize_structure st = Ok st' → ribs st' = ribs st)
  ∧ (key = "surface_coating" → ∀ st',
       initialize_structure st = Ok st' → coatings st' = coatings st).
Proof.
  intros Hkey Hv Hf absent. split; [|split; [|split; [|split]]].
  - apply (initialize_structure_respects (config st) absent); [|done].
    intros k _. unfold absent. destruct (decide (k = key)) as [->|Hne].
    + right. rewrite lookup_delete_eq. eauto.
    + left. by rewrite lookup_delete_ne.
  - intros -> f. by eapply initialize_structure_main_spar_unused.
  - intros -> f. by eapply initialize_structure_spar_unused.
  - intros -> st'. by eapply falsy_ribs_untouched.
  - intros -> st'. by eapply falsy_coating_untouched.
Qed.


(** ** Rib positions on concrete spans *)

(** Closed equations between computed values are settled by evaluating
    the decision procedure for equality. *)
Ltac by_evaluation := apply (bool_decide_unpack _); vm_compute; exact I.

(** C1, as the specification states it: the positions for stations
    [0, 1, 2.5] and spacing [1.0] are not [{0, 0.5, 1, 1.75, 2.5}]. *)
Lemma rib_positions_example_not_five :
  rib_positions [q 0 1; q 1 1; q 5 2] 1
    ≠ Ok [q 0 1; q 1 2; q 1 1; q 7 4; q 5 2].
Proof. by_evaluation. Qed.

(** C1 (amended): for stations [0, 1, 2.5] and spacing [1.0] the
    intervals are cut in [1] and [2] parts, their samples are [0, 1] and
    [1, 1.75, 2.5], and the positions are the four values
    [0, 1, 1.75, 2.5]; [calculate_ribs] interpolates at those four. *)
Theorem rib_positions_example :
  let stations := [q 0 1; q 1 1; q 5 2] in
  let positions := [q 0 1; q 1 1; q 7 4; q 5 2] in
  n_ribs stations 1 = [Np.Finite (q 1 1); Np.Finite (q 2 1)]
  ∧ section_ribs stations 1 = Ok [[q 0 1; q 1 1]; [q 1 1; q 7 4; q 5 2]]
  ∧ rib_positions stations 1 = Ok positions
  ∧ length positions = 4%nat
  ∧ (∀ (C : Collaborators) nm ty cs m material thickness,
       let surface :=
         {| surface_name := nm; surface_type := ty; wingspans := stations;
            curves := cs; mesh := m |} in
       calculate_ribs surface material 1 thickness =
         (ribs_geometry ← vector_interpolation positions stations (data <$> cs);
          Py.comprehension (build_rib surface material thickness)
            (Py.enumerate ribs_geometry)))
  ∧ length <$> @calculate_ribs Sample.collaborators (Sample.wing stations)
                 Sample.balsa 1 default_rib_thickness = Ok 4%nat.
Proof.
  cbv zeta.
  assert (rib_positions [q 0 1; q 1 1; q 5 2] 1
            = Ok [q 0 1; q 1 1; q 7 4; q 5 2]) as Hpos by by_evaluation.
  split; [by_evaluation|]. split; [by_evaluation|]. split; [exact Hpos|].
  split; [done|]. split.
  - intros C nm ty cs m material thickness. unfold calculate_ribs.
    cbn [wingspans curves]. by rewrite Hpos.
  - by_evaluation.
Qed.

(** C4, as the specification states it: on a surface with the single
    station [0], [calculate_ribs] does not return an empty list of ribs;
    it raises. *)
Lemma calculate_ribs_single_station_raises :
  @calculate_ribs Sample.collaborators (Sample.wing [q 0 1]) Sample.balsa 1
    default_rib_thickness = Raise ValueError.
Proof. by_evaluation. Qed.

Lemma rib_positions_no_interval stations max_spacing :
  (length stations ≤ 1)%nat → rib_positions stations max_spacing = Raise ValueError.
Proof.
  intros Hlen. rewrite rib_positions_intervals.
  assert (intervals stations = []) as ->; [|done].
  apply length_zero_iff_nil. rewrite length_intervals. lia.
Qed.

(** C4 (amended): on a surface with one station (or none) there is no
    interval, [np.concatenate] gets no array and raises [ValueError];
    [calculate_ribs] builds no rib and does not return, whatever the
    material, the spacing and the collaborators. *)
Theorem calculate_ribs_single_station (C : Collaborators) surface material
    max_spacing thickness :
  (length (wingspans surface) ≤ 1)%nat →
  calculate_ribs surface material max_spacing thickness = Raise ValueError.
Proof.
  intros Hlen. unfold calculate_ribs.
  by rewrite (rib_positions_no_interval _ _ Hlen).
Qed.

(** C3, as the specification states it: for the sample structure built
    from an empty configuration, which has no element, the [mass]
    property has no failure of its own.  Whatever the constructor
    [SpatialArray] is: if it returns on the [nan] it is given, [mass]
    returns a point mass of mass [0]; if it raises, [mass] raises that
    same exception. *)
Lemma empty_structure_mass_returns :
  (∀ (C : Collaborators) c,
      @SpatialArray C (Np.Scalar Np.NaN) = Ok c →
      @SurfaceStructure_mass C Sample.bare_structure
        = Ok {| mass := 0; coordinates := c; tag := "wing" |})
  ∧ (∀ (C : Collaborators) e,
      @SpatialArray C (Np.Scalar Np.NaN) = Raise e →
      @SurfaceStructure_mass C Sample.bare_structure = Raise e).
Proof.
  split; intros C ? HC;
    change (@SurfaceStructure_mass C Sample.bare_structure)
      with (c ← @SpatialArray C (Np.Scalar Np.NaN);
            Ok {| mass := 0; coordinates := c; tag := "wing" |});
    by rewrite HC.
Qed.

(** C6, as the specification states it: with no entry for the type of
    the wing, construction fails with the built-in [KeyError] of the
    dictionary lookup; and when the wing, configured with ribs but
    having a single station, cannot be built, construction fails with
    the [ValueError] of [np.concatenate] although the fin that follows
    has no entry.  Neither depends on the collaborators. *)
Lemma model_construction_KeyError :
  (∀ C : Collaborators,
      @StructuralModel_init C Sample.aircraft ∅ = Raise KeyError)
  ∧ (∀ C : Collaborators,
      Sample.config_wing_ribs !! surface_type Sample.fin = None
      ∧ @StructuralModel_init C Sample.aircraft_wing_fin Sample.config_wing_ribs
          = Raise ValueError).
Proof.
  split; [done|]. intros C. split; [done|]. vm_compute. reflexivity.
Qed.

(** ** The theorems at concrete inputs *)

Lemma calculate_ribs_single_station_witness :
  (length (wingspans (Sample.wing [q 5 2])) ≤ 1)%nat
  ∧ @calculate_ribs Sample.collaborators (Sample.wing [q 5 2]) Sample.balsa
      (q 1 2) default_rib_thickness = Raise ValueError.
Proof.
  split; [cbn; lia|].
  apply (calculate_ribs_single_station Sample.collaborators). cbn; lia.
Defined.

Lemma degenerate_interval_witness :
  (1 : Qc) ≠ 0
  ∧ section_ribs ([q 0 1] ++ [q 1 1]) 1 = Ok [[q 0 1; q 1 1]]
  ∧ section_ribs (q 1 1 :: [q 2 1]) 1 = Ok [[q 1 1; q 2 1]]
  ∧ section_ribs ([q 0 1] ++ q 1 1 :: q 1 1 :: [q 2 1]) 1
      = Ok ([[q 0 1; q 1 1]] ++ [q 1 1] :: [[q 1 1; q 2 1]])
  ∧ ∃ ps, rib_positions ([q 0 1] ++ q 1 1 :: q 1 1 :: [q 2 1]) 1 = Ok ps
          ∧ NoDup ps
          ∧ ∀ x, x ∈ ps ↔ x = q 1 1 ∨ x ∈ mjoin [[q 0 1; q 1 1]]
                           ∨ x ∈ mjoin [[q 1 1; q 2 1]].
Proof.
  assert ((1 : Qc) ≠ 0) as Hms by by_evaluation.
  assert (section_ribs ([q 0 1] ++ [q 1 1]) 1 = Ok [[q 0 1; q 1 1]]) as HA
    by by_evaluation.
  assert (section_ribs (q 1 1 :: [q 2 1]) 1 = Ok [[q 1 1; q 2 1]]) as HB
    by by_evaluation.
  split; [exact Hms|]. split; [exact HA|]. split; [exact HB|].
  destruct (degenerate_interval [q 0 1] (q 1 1) [q 2 1] 1 _ _ Hms HA HB)
    as (_ & _ & Hall & ps & Hps & Hnodup & Hin).
  split; [exact Hall|]. by exists ps.
Defined.

Lemma aggregate_Permutation_witness :
  [Sample.point_a; Sample.point_b] ≡ₚ [Sample.point_b; Sample.point_a]
  ∧ @aggregate Sample.collaborators "wing" [Sample.point_a; Sample.point_b]
      = @aggregate Sample.collaborators "wing" [Sample.point_b; Sample.point_a].
Proof.
  split; [apply Permutation_swap|].
  apply (@aggregate_Permutation Sample.collaborators). apply Permutation_swap.
Defined.

Lemma empty_structure_mass_witness :
  spars Sample.bare_structure = []
  ∧ ribs Sample.bare_structure = []
  ∧ coatings Sample.bare_structure = []
  ∧ @SurfaceStructure_mass Sample.collaborators Sample.bare_structure
      = (c ← @SpatialArray Sample.collaborators (Np.Scalar Np.NaN);
         Ok {| mass := 0; coordinates := c; tag := "wing" |}).
Proof.
  split; [done|]. split; [done|]. split; [done|].
  exact (@empty_structure_mass Sample.collaborators Sample.bare_structure
           eq_refl eq_refl eq_refl).
Defined.

Lemma model_construction_witness :
  Sample.wing [q 0 1; q 2 1] ∈ surfaces Sample.aircraft
  ∧ (∅ : gmap SurfaceType (gmap string cfgval))
      !! surface_type (Sample.wing [q 0 1; q 2 1]) = None
  ∧ Py.raises (@StructuralModel_init Sample.collaborators Sample.aircraft ∅)
  ∧ @StructuralModel_init Sample.collaborators Sample.aircraft ∅
      = Raise KeyError.
Proof.
  assert (Sample.wing [q 0 1; q 2 1] ∈ surfaces Sample.aircraft) as Hin
    by (apply elem_of_cons; by left).
  assert ((∅ : gmap SurfaceType (gmap string cfgval))
            !! surface_type (Sample.wing [q 0 1; q 2 1]) = None) as Hnone
    by reflexivity.
  destruct (@model_construction Sample.collaborators Sample.aircraft ∅)
    as (Hraises & Hfirst & Hkey & _).
  split; [exact Hin|]. split; [exact Hnone|].
  split; [exact (Hraises _ Hin Hnone)|].
  apply (Hfirst [] (Sample.wing [q 0 1; q 2 1]) []);
    [reflexivity|constructor|exact (Hkey _ Hnone)].
Defined.

Lemma falsy_key_like_absent_witness :
  "main_spar" ∈ ["main_spar"; "secondary_spar"; "ribs"; "surface_coating"]
  ∧ config Sample.unbuilt_structure !! "main_spar" = Some (CDict ∅)
  ∧ truthy (CDict ∅) = false
  ∧ @initialize_structure Sample.collaborators
        (set_config (delete "main_spar" (config Sample.unbuilt_structure))
           Sample.unbuilt_structure)
      = set_config (delete "main_spar" (config Sample.unbuilt_structure))
          <$> @initialize_structure Sample.collaborators Sample.unbuilt_structure.
Proof.
  assert ("main_spar" ∈ ["main_spar"; "secondary_spar"; "ribs"; "surface_coating"])
    as Hkey by set_solver.
  assert (config Sample.unbuilt_structure !! "main_spar" = Some (CDict ∅))
    as Hv by reflexivity.
  assert (truthy (CDict ∅) = false) as Hf by reflexivity.
  split; [exact Hkey|]. split; [exact Hv|]. split; [exact Hf|].
  exact (proj1 (falsy_key_like_absent Sample.collaborators _ _ _ Hkey Hv Hf)).
Defined.

(** ** The ribs built by [calculate_ribs] *)

Lemma comprehension_enumerate_from {A B} (f : nat → A → B) (l : list A) s :
  Py.comprehension (λ ix, Ok (f ix.1 ix.2)) (zip (seq s (length l)) l)
    = Ok (imap (λ i, f (s + i)%nat) l).
Proof.
  revert s f; induction l as [|x l IH]; intros s f; [done|].
  cbn [length seq zip zip_with Py.comprehension mbind result_bind fst snd].
  rewrite IH. cbn [mbind result_bind imap]. rewrite Nat.add_0_r. do 2 f_equal.
  apply imap_ext. intros i y _. cbn. f_equal. lia.
Qed.

Lemma build_ribs_named `{Collaborators} surface material thickness initial
    (geometry : list (list vec3)) :
  first_char (name (surface_type surface)) = Ok initial →
  Py.comprehension (build_rib surface material thickness) (Py.enumerate geometry)
    = Ok (imap (named_rib initial material thickness) geometry).
Proof.
  intros Hname. unfold Py.enumerate.
  trans (Py.comprehension
           (λ ix, Ok (named_rib initial material thickness ix.1 ix.2))
           (zip (seq 0 (length geometry)) geometry)).
  - apply comprehension_Forall2, Forall_Forall2_diag, Forall_forall.
    intros [i curve] _. unfold build_rib. by rewrite Hname.
  - exact (comprehension_enumerate_from
             (named_rib initial material thickness) geometry 0).
Qed.

Lemma rib_names_NoDup initial material thickness (geometry : list (list vec3)) :
  NoDup (curve_name ∘ rib_curve
           <$> imap (named_rib initial material thickness) geometry).
Proof.
  apply NoDup_alt. intros i j nm Hi Hj.
  rewrite list_lookup_fmap, list_lookup_imap in Hi, Hj.
  destruct (geometry !! i), (geometry !! j); try done.
  cbn in Hi, Hj. injection Hi as <-. injection Hj as Hj.
  apply (inj (String.append initial)) in Hj.
  apply (inj (String.append "_rib_")) in Hj. by apply (inj pretty) in Hj.
Qed.

(** X5: [calculate_ribs] builds one rib per interpolated curve, in the
    order of the curves, each with the thickness and material passed in;
    rib [i] is named by the first letter [initial] of the surface type,
    ["_rib_"]
    and [i] counted from zero, so that no two ribs share a name. *)
Theorem calculate_ribs_named (C : Collaborators) surface material max_spacing
    thickness initial positions geometry :
  first_char (name (surface_type surface)) = Ok initial →
  rib_positions (wingspans surface) max_spacing = Ok positions →
  vector_interpolation positions (wingspans surface) (data <$> curves surface)
    = Ok geometry →
  let ribs := imap (named_rib initial material thickness) geometry in
  calculate_ribs surface material max_spacing thickness = Ok ribs
  ∧ length ribs = length geometry
  ∧ NoDup (curve_name ∘ rib_curve <$> ribs).
Proof.
  intros Hname Hpos Hgeo ribs. split; [|split].
  - unfold calculate_ribs. rewrite Hpos. cbn [mbind result_bind].
    rewrite Hgeo. cbn [mbind result_bind]. by eapply build_ribs_named.
  - apply length_imap.
  - apply rib_names_NoDup.
Qed.

(** ** Inputs that [calculate_ribs] does not validate *)

Lemma interval_samples_zero_spacing a b :
  interval_samples 0 (a, b) = Raise ValueError
  ∨ interval_samples 0 (a, b) = Raise OverflowError.
Proof.
  unfold interval_samples, Np.true_divide. cbn [fst snd].
  destruct (decide ((0 : Qc) = 0)) as [_|]; [|done].
  destruct (decide (b - a = 0)); [by left|].
  destruct (decide (0 < b - a)); by right.
Qed.

(** X6: with [max_spacing = 0] the division gives [inf] or [nan] and the
    conversion to an integer raises: [calculate_ribs] never returns. *)
Theorem zero_spacing_raises (C : Collaborators) surface material thickness :
  calculate_ribs surface material 0 thickness = Raise ValueError
  ∨ calculate_ribs surface material 0 thickness = Raise OverflowError.
Proof.
  unfold calculate_ribs.
  destruct (wingspans surface) as [|a [|b l]] eqn:Hws.
  - left. by rewrite (rib_positions_no_interval [] 0) by (cbn; lia).
  - left. by rewrite (rib_positions_no_interval [a] 0) by (cbn; lia).
  - rewrite rib_positions_intervals, intervals_cons.
    cbn [Py.comprehension].
    destruct (interval_samples_zero_spacing a b) as [-> | ->]; [by left|by right].
Qed.


(** ** What [initialize_structure] builds *)

Section initialize.
Context `{C : Collaborators}.














End initialize.

(** ** Malformed configuration entries *)

Section malformed.
Context `{C : Collaborators}.

Lemma when_configured_truthy key body st v :
  config st !! key = Some v → truthy v = true →
  when_configured key body st = (kw ← unpack v; body st kw).
Proof. intros Hv Ht. unfold when_configured. by rewrite Hv, Ht. Qed.

Lemma unpack_non_mapping v : (∀ kw, v ≠ CDict kw) → unpack v = Raise TypeError.
Proof. intros Hv. destruct v; try done. by destruct (Hv kw). Qed.

(** The outcome of [initialize_structure] when the stage of [key] fails
    with [e] as soon as it is reached. *)
Lemma initialize_structure_failing_stage st key e :
  key ∈ ["main_spar"; "secondary_spar"; "ribs"; "surface_coating"] →
  (∀ body st1, config st1 = config st → when_configured key body st1 = Raise e) →
  Py.raises (initialize_structure st)
  ∧ (key = "main_spar" → initialize_structure st = Raise e).
Proof.
  intros Hkey Hfail. unfold initialize_structure.
  destruct (decide (key = "main_spar")) as [->|Hn1].
  { rewrite Hfail by done. split; [by eexists|done]. }
  split; [|done].
  destruct (when_configured "main_spar" _ st) as [st1|e1] eqn:H1; [|by eexists].
  apply when_configured_config in H1; [|apply appends_spar].
  cbn [mbind result_bind].
  destruct (decide (key = "secondary_spar")) as [->|Hn2].
  { rewrite Hfail by done. by eexists. }
  destruct (when_configured "secondary_spar" _ st1) as [st2|e2] eqn:H2; [|by eexists].
  apply when_configured_config in H2; [|apply appends_spar].
  cbn [mbind result_bind].
  destruct (decide (key = "ribs")) as [->|Hn3].
  { rewrite Hfail by congruence. by eexists. }
  destruct (when_configured "ribs" _ st2) as [st3|e3] eqn:H3; [|by eexists].
  apply when_configured_config in H3; [|apply appends_ribs].
  cbn [mbind result_bind].
  assert (key = "surface_coating") as ->.
  { repeat (apply elem_of_cons in Hkey as [?|Hkey]; [done|]).
    by apply elem_of_nil in Hkey. }
  rewrite Hfail by congruence. by eexists.
Qed.

(** X10: a key bound to a truthy value that is not a dictionary ([True],
    a number, a non-empty string or list) makes [initialize_structure]
    raise; for [main_spar], the first key read, the exception is the
    [TypeError] of the [**] unpacking. *)
Theorem non_mapping_entry_raises st key v :
  key ∈ ["main_spar"; "secondary_spar"; "ribs"; "surface_coating"] →
  config st !! key = Some v → truthy v = true → (∀ kw, v ≠ CDict kw) →
  Py.raises (initialize_structure st)
  ∧ (key = "main_spar" → initialize_structure st = Raise TypeError).
Proof.
  intros Hkey Hv Ht Hnd. apply initialize_structure_failing_stage; [done|].
  intros body st1 Hst1. rewrite (when_configured_truthy key body st1 v) by congruence.
  by rewrite unpack_non_mapping.
Qed.

Lemma bind_keywords_Ok required optional kw :
  bind_keywords required optional kw = Ok () →
  dom kw ⊆ list_to_set (required ++ optional) ∧ list_to_set required ⊆ dom kw.
Proof. unfold bind_keywords. by case_decide. Qed.

Lemma call_SurfaceCoating_keywords surface kw :
  dom kw ≠ {["thickness"; "material"]} →
  call_SurfaceCoating surface kw = Raise TypeError.
Proof.
  intros Hdom. unfold call_SurfaceCoating.
  destruct (bind_keywords _ _ kw) as [[]|e] eqn:Hb.
  - apply bind_keywords_Ok in Hb as [H1 H2]. destruct Hdom.
    apply set_eq. intros k. specialize (H1 k). specialize (H2 k).
    set_unfold. tauto.
  - unfold bind_keywords in Hb. case_decide; [done|]. by injection Hb as <-.
Qed.

Lemma call_calculate_ribs_keywords surface kw :
  ¬ ({["material"; "max_spacing"]} ⊆ dom kw
     ∧ dom kw ⊆ {["material"; "max_spacing"; "thickness"]}) →
  call_calculate_ribs surface kw = Raise TypeError.
Proof.
  intros Hdom. unfold call_calculate_ribs.
  destruct (bind_keywords _ _ kw) as [[]|e] eqn:Hb.
  - apply bind_keywords_Ok in Hb as [H1 H2]. destruct Hdom.
    split; intros k Hk; [apply H2|specialize (H1 k Hk)]; set_unfold; tauto.
  - unfold bind_keywords in Hb. case_decide; [done|]. by injection Hb as <-.
Qed.

Lemma truthy_dict kw : kw ≠ ∅ → truthy (CDict kw) = true.
Proof. intros. cbn. by apply bool_decide_eq_true. Qed.

(** X11: the keywords of an entry are bound to the signature it is
    unpacked into: a non-empty [surface_coating] dictionary whose keys
    are not exactly [thickness] and [material], or a non-empty [ribs]
    dictionary that lacks [material] or [max_spacing] or has a key other
    than these and [thickness], makes [initialize_structure] raise. *)
Theorem keywords_checked st kw :
  kw ≠ ∅ →
  (config st !! "surface_coating" = Some (CDict kw) →
   dom kw ≠ {["thickness"; "material"]} →
   Py.raises (initialize_structure st))
  ∧ (config st !! "ribs" = Some (CDict kw) →
     ¬ ({["material"; "max_spacing"]} ⊆ dom kw
        ∧ dom kw ⊆ {["material"; "max_spacing"; "thickness"]}) →
     Py.raises (initialize_structure st)).
Proof.
  intros Hne. unfold initialize_structure. split; intros Hv Hdom.
  - destruct (when_configured "main_spar" _ st) as [st1|e1] eqn:H1; [|by eexists].
    apply when_configured_config in H1; [|apply appends_spar].
    cbn [mbind result_bind].
    destruct (when_configured "secondary_spar" _ st1) as [st2|e2] eqn:H2; [|by eexists].
    apply when_configured_config in H2; [|apply appends_spar].
    cbn [mbind result_bind].
    destruct (when_configured "ribs" _ st2) as [st3|e3] eqn:H3; [|by eexists].
    apply when_configured_config in H3; [|apply appends_ribs].
    cbn [mbind result_bind].
    rewrite (when_configured_truthy "surface_coating" _ st3 (CDict kw))
      by (by rewrite ?truthy_dict; congruence).
    cbn [unpack mbind result_bind].
    rewrite call_SurfaceCoating_keywords by done. by eexists.
  - destruct (when_configured "main_spar" _ st) as [st1|e1] eqn:H1; [|by eexists].
    apply when_configured_config in H1; [|apply appends_spar].
    cbn [mbind result_bind].
    destruct (when_configured "secondary_spar" _ st1) as [st2|e2] eqn:H2; [|by eexists].
    apply when_configured_config in H2; [|apply appends_spar].
    cbn [mbind result_bind].
    rewrite (when_configured_truthy "ribs" _ st2 (CDict kw))
      by (by rewrite ?truthy_dict; congruence).
    cbn [unpack mbind result_bind].
    rewrite call_calculate_ribs_keywords by done. by eexists.
Qed.
End malformed.

(** ** The structures of a model *)

Section model.
Context `{C : Collaborators}.



(** X13: construction reads the configuration only at the surface types
    that occur in the aircraft: two configurations that agree there give
    the same outcome, the same structures or the same exception. *)
Theorem unused_entries_ignored geometry cfg cfg' :
  (∀ s, s ∈ surfaces geometry →
        cfg !! surface_type s = cfg' !! surface_type s) →
  structures <$> StructuralModel_init geometry cfg
    = structures <$> StructuralModel_init geometry cfg'.
Proof.
  intros Hagree. unfold StructuralModel_init.
  rewrite !build_structures_comprehension.
  assert (Py.comprehension (build_structure cfg) (surfaces geometry)
            = Py.comprehension (build_structure cfg') (surfaces geometry)) as ->.
  { apply comprehension_Forall2, Forall_Forall2_diag, Forall_forall.
    intros s Hs. unfold build_structure. by rewrite (Hagree s Hs). }
  by destruct (Py.comprehension _ _).
Qed.
End model.

(** ** The further properties at concrete inputs *)

Lemma calculate_ribs_named_witness :
  first_char (name (surface_type (Sample.wing [q 0 1; q 2 1]))) = Ok "M"
  ∧ rib_positions (wingspans (Sample.wing [q 0 1; q 2 1])) 1
      = Ok [q 0 1; q 1 1; q 2 1]
  ∧ @vector_interpolation Sample.collaborators [q 0 1; q 1 1; q 2 1]
        (wingspans (Sample.wing [q 0 1; q 2 1]))
        (data <$> curves (Sample.wing [q 0 1; q 2 1]))
      = Ok [[]; []; []]
  ∧ @calculate_ribs Sample.collaborators (Sample.wing [q 0 1; q 2 1])
        Sample.balsa 1 (q 1 100)
      = Ok (imap (named_rib "M" Sample.balsa (q 1 100)) [[]; []; []]).
Proof.
  assert (rib_positions (wingspans (Sample.wing [q 0 1; q 2 1])) 1
            = Ok [q 0 1; q 1 1; q 2 1]) as Hps by by_evaluation.
  split; [reflexivity|]. split; [exact Hps|]. split; [reflexivity|].
  exact (proj1 (calculate_ribs_named Sample.collaborators
                  (Sample.wing [q 0 1; q 2 1]) Sample.balsa 1 (q 1 100)
                  "M" _ [[]; []; []] eq_refl Hps eq_refl)).
Defined.




Lemma non_mapping_entry_raises_witness :
  "main_spar" ∈ ["main_spar"; "secondary_spar"; "ribs"; "surface_coating"]
  ∧ config Sample2.structure_main_spar_true !! "main_spar" = Some (CBool true)
  ∧ truthy (CBool true) = true
  ∧ (∀ kw, CBool true ≠ CDict kw)
  ∧ @initialize_structure Sample.collaborators Sample2.structure_main_spar_true
      = Raise TypeError.
Proof.
  assert ("main_spar" ∈ ["main_spar"; "secondary_spar"; "ribs"; "surface_coating"])
    as Hkey by left.
  assert (config Sample2.structure_main_spar_true !! "main_spar"
            = Some (CBool true)) as Hv by reflexivity.
  assert (∀ kw, CBool true ≠ CDict kw) as Hnd by discriminate.
  split; [exact Hkey|]. split; [exact Hv|]. split; [reflexivity|].
  split; [exact Hnd|].
  exact (proj2 (@non_mapping_entry_raises Sample.collaborators _ _ _
                  Hkey Hv eq_refl Hnd) eq_refl).
Defined.

Lemma keywords_checked_witness :
  Sample2.coating_without_material ≠ ∅
  ∧ config Sample2.structure_bad_coating !! "surface_coating"
      = Some (CDict Sample2.coating_without_material)
  ∧ dom Sample2.coating_without_material ≠ {["thickness"; "material"]}
  ∧ Py.raises (@initialize_structure Sample.collaborators
                 Sample2.structure_bad_coating).
Proof.
  assert (Sample2.coating_without_material ≠ ∅) as Hne by by_evaluation.
  assert (config Sample2.structure_bad_coating !! "surface_coating"
            = Some (CDict Sample2.coating_without_material)) as Hv by reflexivity.
  assert (dom Sample2.coating_without_material ≠ {["thickness"; "material"]})
    as Hdom by by_evaluation.
  split; [exact Hne|]. split; [exact Hv|]. split; [exact Hdom|].
  exact (proj1 (@keywords_checked Sample.collaborators _ _ Hne) Hv Hdom).
Defined.


Lemma unused_entries_ignored_witness :
  (∀ s, s ∈ surfaces Sample.aircraft →
        Sample2.configuration !! surface_type s
          = Sample2.configuration_more !! surface_type s)
  ∧ structures <$> @StructuralModel_init Sample.collaborators Sample.aircraft
                     Sample2.configuration
      = structures <$> @StructuralModel_init Sample.collaborators Sample.aircraft
                         Sample2.configuration_more.
Proof.
  assert (∀ s, s ∈ surfaces Sample.aircraft →
            Sample2.configuration !! surface_type s
              = Sample2.configuration_more !! surface_type s) as Hagree.
  { intros s Hs. apply list_elem_of_singleton in Hs as ->. reflexivity. }
  split; [exact Hagree|].
  exact (@unused_entries_ignored Sample.collaborators _ _ _ Hagree).
Defined.


(** * The program over binary64 *)

Module F64Facts.
Import F64.
Import SpecFloat.

(** ** Rib positions *)

(** C5, in the arithmetic of the code: three spans with strictly
    increasing stations and a positive spacing on which a station is not
    among the rib positions.  For the stations [0.0, 1.0] and an
    infinite spacing the quotient of line 189 is [0.0]: the interval gets
    [n = 0] parts and [np.linspace] the single sample [0.0], so the
    station [1.0] is lost.  For the stations [0.0, 2.0 ** -600] and the
    spacing [2.0 ** 600] the quotient underflows to [0.0], with the same
    effect.  For the stations [0.0, 2.0 ** 1000] and the spacing
    [2.0 ** -100] the quotient overflows to [inf] and [int] raises
    [OverflowError]: no positions are produced. *)
Theorem endpoint_lost :
  (ltb zero one = true
   ∧ ltb zero infinity = true
   ∧ n_ribs [zero; one] infinity = [zero]
   ∧ rib_positions [zero; one] infinity = Ok [zero])
  ∧ (ltb zero (pow2 (-600)) = true
     ∧ ltb zero (pow2 600) = true
     ∧ n_ribs [zero; pow2 (-600)] (pow2 600) = [zero]
     ∧ rib_positions [zero; pow2 (-600)] (pow2 600) = Ok [zero])
  ∧ (ltb zero (pow2 1000) = true
     ∧ ltb zero (pow2 (-100)) = true
     ∧ n_ribs [zero; pow2 1000] (pow2 (-100)) = [infinity]
     ∧ rib_positions [zero; pow2 1000] (pow2 (-100)) = Raise OverflowError).
Proof. repeat split; by_evaluation. Qed.

(** *** Quotients that leave the range *)

Lemma eqb_zero x : eqb x zero = true ↔ ∃ s, x = S754_zero s.
Proof.
  split.
  - destruct x as [s|[]| |[] m e]; try done. by exists s.
  - by intros [s ->].
Qed.

Lemma eqb_refl x : is_finite x = true → eqb x x = true.
Proof.
  destruct x as [s|s| |s m e]; try done. intros _.
  unfold eqb, SFeqb, SFcompare.
  rewrite Z.compare_refl, Pos.compare_cont_refl. by destruct s.
Qed.

(** A quotient that is a zero comes from a dividend that is a zero or a
    finite number. *)
Lemma divide_zero_finite x y s :
  divide x y = S754_zero s → is_finite x = true.
Proof. by destruct x as [| | |], y as [| | |]. Qed.

Lemma sub_finite_r x y : is_finite (sub x y) = true → is_finite y = true.
Proof. by destruct x as [|[]| |], y as [|[]| |]. Qed.

Lemma mul_zero_finite s x :
  is_finite x = true → ∃ s', mul (S754_zero s) x = S754_zero s'.
Proof. destruct x; try done; intros _; by eexists. Qed.

(** Adding a zero to a float gives a float equal to it. *)
Lemma add_zero_eqb s x :
  is_finite x = true →
  eqb (add (S754_zero s) x) x = true
  ∧ ∀ y, eqb (add (S754_zero s) x) y = eqb x y.
Proof.
  destruct x as [s'| | |s' m e]; try done; intros _.
  - destruct s, s'; (split; [done|]); by intros [].
  - split; [|done]. by apply (eqb_refl (S754_finite s' m e)).
Qed.

Lemma add_zero_one s : add (S754_zero s) one = one.
Proof. reflexivity. Qed.

Lemma int_one : int one = Ok 1%Z.
Proof. reflexivity. Qed.

Lemma linspace_single start stop :
  linspace start stop 1 = Ok [add (mul zero (sub stop start)) start].
Proof. reflexivity. Qed.

Lemma rib_positions_pair a b ms :
  rib_positions [a; b] ms
    = (num ← int (add (ceil (divide (sub b a) ms)) one);
       samples ← linspace a b num;
       Ok (unique samples)).
Proof.
  unfold rib_positions, section_ribs, section_rib. cbn.
  destruct (int _) as [num|]; cbn; [|done].
  destruct (linspace a b num) as [samples|]; cbn; [|done].
  by rewrite app_nil_r.
Qed.

(** X24: when the quotient of line 189 is a zero for two stations [a],
    [b] (because they are equal, because [max_spacing] is infinite, or
    because the quotient underflows), the interval gets a single sample,
    a float equal to [a]: it is the only rib position, and a station [b]
    not equal to [a] is not a rib position. *)
Theorem zero_quotient_single_position a b ms :
  eqb (divide (sub b a) ms) zero = true →
  ∃ x, rib_positions [a; b] ms = Ok [x]
       ∧ eqb x a = true
       ∧ (eqb a b = false → eqb x b = false).
Proof.
  intros [s Hq]%eqb_zero.
  pose proof (divide_zero_finite _ _ _ Hq) as Hdelta.
  pose proof (sub_finite_r _ _ Hdelta) as Ha.
  destruct (mul_zero_finite false _ Hdelta) as [s' Hmul].
  destruct (add_zero_eqb s' a Ha) as [Hxa Hxb].
  exists (add (S754_zero s') a).
  rewrite rib_positions_pair, Hq. cbn [ceil].
  rewrite add_zero_one, int_one. cbn [mbind result_bind].
  rewrite linspace_single. cbn [mbind result_bind].
  fold zero in Hmul. rewrite Hmul.
  split; [done|]. split; [done|]. intros Hab. by rewrite Hxb.
Qed.

(** The floats on which [int] raises. *)
Lemma int_add_one_raises n :
  is_finite n = false → Py.raises (int (add (ceil n) one)).
Proof.
  destruct n as [|[]| |]; try done; intros _; cbn; by eexists.
Qed.

Lemma lookup_n_ribs ws ms i a b :
  ws !! i = Some a → ws !! S i = Some b →
  n_ribs ws ms !! i = Some (ceil (divide (sub b a) ms)).
Proof.
  intros Ha Hb. unfold n_ribs, Np.slice_from_1, Np.slice_to_last.
  rewrite list_lookup_fmap.
  assert (zip_with sub (drop 1 ws) (take (length ws - 1) ws) !! i
            = Some (sub b a)) as ->; [|done].
  apply lookup_zip_with_Some. exists b, a. split; [done|]. split.
  - by rewrite lookup_drop.
  - apply lookup_take_Some. split; [done|].
    apply lookup_lt_Some in Hb. lia.
Qed.

Lemma lookup_enumerate {A} (l : list A) i x :
  l !! i = Some x → Py.enumerate l !! i = Some (i, x).
Proof.
  intros Hx. unfold Py.enumerate. apply lookup_zip_with_Some.
  exists i, x. split; [done|]. split; [|done].
  apply lookup_seq. split; [done|]. by eapply lookup_lt_Some.
Qed.

(** X25: when the quotient of line 189 is [nan] or an infinity for some
    pair of consecutive stations (a zero [max_spacing], a quotient that
    overflows, a station that is [nan] or infinite), [int] raises and no
    rib positions are produced. *)
Theorem nonfinite_quotient_raises ws ms i a b :
  ws !! i = Some a → ws !! S i = Some b →
  is_finite (divide (sub b a) ms) = false →
  Py.raises (rib_positions ws ms).
Proof.
  intros Ha Hb Hq.
  assert (Py.raises (section_ribs ws ms)) as [e He].
  { apply comprehension_Exists_raises, Exists_exists.
    exists (i, ceil (divide (sub b a) ms)). split.
    - eapply list_elem_of_lookup_2, lookup_enumerate, lookup_n_ribs; done.
    - unfold section_rib, Py.index. rewrite Ha.
      replace (i + 1)%nat with (S i) by lia. rewrite Hb.
      cbn [mbind result_bind].
      destruct (int_add_one_raises _ Hq) as [e ->]. by exists e. }
  unfold rib_positions. rewrite He. by exists e.
Qed.

Lemma zero_quotient_single_position_witness :
  eqb (divide (sub (pow2 (-600)) zero) (pow2 600)) zero = true
  ∧ ∃ x, rib_positions [zero; pow2 (-600)] (pow2 600) = Ok [x]
         ∧ eqb x zero = true
         ∧ eqb x (pow2 (-600)) = false.
Proof.
  assert (eqb (divide (sub (pow2 (-600)) zero) (pow2 600)) zero = true)
    as Hq by reflexivity.
  split; [exact Hq|].
  destruct (zero_quotient_single_position zero (pow2 (-600)) (pow2 600) Hq)
    as (x & Hx & Hxa & Hxb).
  exists x. split; [exact Hx|]. split; [exact Hxa|].
  apply Hxb. reflexivity.
Defined.

Lemma nonfinite_quotient_raises_witness :
  [one; of_Z 2; of_Z 3] !! 1%nat = Some (of_Z 2)
  ∧ [one; of_Z 2; of_Z 3] !! 2%nat = Some (of_Z 3)
  ∧ is_finite (divide (sub (of_Z 3) (of_Z 2)) zero) = false
  ∧ Py.raises (rib_positions [one; of_Z 2; of_Z 3] zero).
Proof.
  split; [reflexivity|]. split; [reflexivity|]. split; [reflexivity|].
  exact (nonfinite_quotient_raises [one; of_Z 2; of_Z 3] zero 1
           (of_Z 2) (of_Z 3) eq_refl eq_refl eq_refl).
Defined.

(** ** The mass of a structure *)

Section mass.
Context `{Externals}.

Lemma foldl_vadd_components rows acc :
  foldl vadd acc rows
    = Vec3 (foldl (SFadd 53 1024) (vx acc) (vx <$> rows))
           (foldl (SFadd 53 1024) (vy acc) (vy <$> rows))
           (foldl (SFadd 53 1024) (vz acc) (vz <$> rows)).
Proof.
  revert acc. induction rows as [|row rows IH]; intros acc.
  - by destruct acc.
  - cbn [foldl fmap list_fmap]. by rewrite IH.
Qed.

Lemma aggregate_nonempty tag pm pms :
  let total :=
    foldl (SFadd 53 1024) (S754_zero false) (mass <$> pm :: pms) in
  let weighted (axis : vec3 → float) :=
    foldl (SFadd 53 1024) (S754_zero false)
      ((λ pm, SFmul 53 1024 (mass pm) (axis (coordinates pm)))
         <$> pm :: pms) in
  aggregate tag (pm :: pms)
    = (c ← SpatialArray (Array1 [SFdiv 53 1024 (weighted vx) total;
                                 SFdiv 53 1024 (weighted vy) total;
                                 SFdiv 53 1024 (weighted vz) total]);
       Ok {| mass := total; coordinates := c; tag := tag |}).
Proof.
  intros total weighted. unfold aggregate, sum_axis0, quotient.
  cbn [fmap list_fmap]. rewrite foldl_vadd_components.
  cbn [vx vy vz fmap list_fmap]. rewrite <-!list_fmap_compose.
  reflexivity.
Qed.

(** C2 (amended): for a structure with at least one element (and a
    [SpatialArray] that wraps arrays of three numbers), [mass] returns a
    point mass whose mass is the binary64 sum of the masses of the
    spars, then of the ribs, then of the coatings, each element once,
    accumulated from [0] in that order with a rounding at every
    addition; whose coordinates are, axis by axis, the sum of the
    rounded products [mass_i * coordinate_i], accumulated in the same
    way, divided by that mass; and whose tag is the name of the
    surface. *)
Theorem composite_mass st :
  (∀ x y z, SpatialArray (Array1 [x; y; z]) = Ok (Array1 [x; y; z])) →
  collect_masses st ≠ [] →
  let elements :=
    (spar_mass <$> spars st)
    ++ (StructuralRib_mass <$> ribs st)
    ++ (SurfaceCoating_mass <$> coatings st) in
  let total :=
    foldl (SFadd 53 1024) (S754_zero false) (mass <$> elements) in
  let weighted (axis : vec3 → float) :=
    foldl (SFadd 53 1024) (S754_zero false)
      ((λ pm, SFmul 53 1024 (mass pm) (axis (coordinates pm)))
         <$> elements) in
  length elements
    = (length (spars st) + length (ribs st) + length (coatings st))%nat
  ∧ ∃ pm, SurfaceStructure_mass st = Ok pm
      ∧ mass pm = total
      ∧ coordinates pm = Array1 [SFdiv 53 1024 (weighted vx) total;
                                 SFdiv 53 1024 (weighted vy) total;
                                 SFdiv 53 1024 (weighted vz) total]
      ∧ tag pm = surface_name (surface st).
Proof.
  intros Hwrap Hne elements total weighted. split.
  { unfold elements. rewrite !length_app, !length_fmap. lia. }
  unfold SurfaceStructure_mass.
  change (collect_masses st) with elements in *.
  destruct elements as [|pm pms] eqn:Helements; [done|].
  rewrite aggregate_nonempty, Hwrap. cbn [mbind result_bind].
  eexists. split; [done|]. done.
Qed.

(** A quotient by a zero is [nan] or an infinity. *)
Lemma divide_by_zero x total :
  eqb total zero = true → is_finite (divide x total) = false.
Proof. by destruct x as [| | |? ? ?], total as [[]|[]| |[] ? ?]. Qed.

(** X19: when the binary64 sum of the masses of a non-empty sequence of
    elements is zero (as when every element is weightless), and
    [SpatialArray] wraps arrays of three numbers, nothing is raised:
    [mass] returns that zero mass with coordinates that are each [nan]
    or an infinity. *)
Theorem aggregate_zero_mass tag pms :
  (∀ x y z, SpatialArray (Array1 [x; y; z]) = Ok (Array1 [x; y; z])) →
  pms ≠ [] →
  eqb (py_sum (mass <$> pms)) zero = true →
  ∃ pm x y z,
    aggregate tag pms = Ok pm
    ∧ eqb (mass pm) zero = true
    ∧ coordinates pm = Array1 [x; y; z]
    ∧ is_finite x = false ∧ is_finite y = false ∧ is_finite z = false.
Proof.
  intros Hwrap Hne Hzero. destruct pms as [|pm pms]; [done|].
  unfold aggregate, sum_axis0, quotient.
  cbn [fmap list_fmap] in *. rewrite Hwrap. cbn [mbind result_bind].
  do 4 eexists. split; [done|]. cbn [mass coordinates].
  split; [exact Hzero|]. split; [done|].
  by rewrite !divide_by_zero.
Qed.

End mass.

(** C2, as the specification states it: for a structure with three
    spars, of masses [2.0], [1.0] and [0.1], the mass that the property
    returns, whenever it returns (whatever the collaborators are), is
    the float [3.1], which is not the exact sum of these three
    numbers. *)
Lemma composite_mass_not_exact :
  (∀ E : Externals,
      mass <$> @collect_masses E Sample.three_spars
        = [of_Z 2; one; Sample.tenth])
  ∧ (∀ (E : Externals) pm,
      @SurfaceStructure_mass E Sample.three_spars = Ok pm →
      mass pm = S754_finite false 0x18cccccccccccd (-51)
      ∧ value (mass pm) ≠ exact_sum [of_Z 2; one; Sample.tenth])
  ∧ ∃ pm, @SurfaceStructure_mass Sample.externals Sample.three_spars = Ok pm.
Proof.
  split; [done|]. split.
  - intros E pm. unfold SurfaceStructure_mass, aggregate.
    destruct (SpatialArray _) as [c|]; cbn [mbind result_bind]; [|done].
    intros [= <-]. cbn [mass]. split; [by_evaluation|by_evaluation].
  - eexists. reflexivity.
Qed.

Lemma composite_mass_witness :
  (∀ x y z, @SpatialArray Sample.externals (Array1 [x; y; z])
              = Ok (Array1 [x; y; z]))
  ∧ @collect_masses Sample.externals Sample.structure ≠ []
  ∧ ∃ pm,
      @SurfaceStructure_mass Sample.externals Sample.structure = Ok pm
      ∧ mass pm = S754_finite false 0x18cccccccccccd (-51)
      ∧ coordinates pm = Array1 [S754_finite false 0x14a5294a5294a5 (-53);
                                 S754_finite false 0x14a5294a5294a5 (-54);
                                 S754_finite false 0x10842108421084 (-57)]
      ∧ tag pm = "wing".
Proof.
  assert (∀ x y z, @SpatialArray Sample.externals (Array1 [x; y; z])
                     = Ok (Array1 [x; y; z])) as Hwrap by reflexivity.
  assert (@collect_masses Sample.externals Sample.structure ≠ []) as Hne
    by discriminate.
  split; [exact Hwrap|]. split; [exact Hne|].
  destruct (@composite_mass Sample.externals Sample.structure Hwrap Hne)
    as (_ & pm & Hpm & Hmass & Hcoordinates & Htag).
  exists pm. split; [exact Hpm|].
  split; [rewrite Hmass; by_evaluation|].
  split; [rewrite Hcoordinates; by_evaluation|exact Htag].
Defined.

Lemma aggregate_zero_mass_witness :
  (∀ x y z, @SpatialArray Sample.externals (Array1 [x; y; z])
              = Ok (Array1 [x; y; z]))
  ∧ [Sample.weightless] ≠ []
  ∧ eqb (py_sum (mass <$> [Sample.weightless])) zero = true
  ∧ @aggregate Sample.externals "wing" [Sample.weightless]
      = Ok {| mass := zero; coordinates := Array1 [nan; nan; nan];
              tag := "wing" |}.
Proof.
  assert (∀ x y z, @SpatialArray Sample.externals (Array1 [x; y; z])
                     = Ok (Array1 [x; y; z])) as Hwrap by reflexivity.
  assert ([Sample.weightless] ≠ []) as Hne by discriminate.
  assert (eqb (py_sum (mass <$> [Sample.weightless])) zero = true) as Hzero
    by reflexivity.
  split; [exact Hwrap|]. split; [exact Hne|]. split; [exact Hzero|].
  destruct (@aggregate_zero_mass Sample.externals "wing" [Sample.weightless]
              Hwrap Hne Hzero) as (pm & x & y & z & Hpm & _).
  rewrite Hpm. symmetry. rewrite <-Hpm. by_evaluation.
Defined.

End F64Facts.

(** * The XML parser *)

Module XmlFacts.
Import Xml.
Import Stdlib.Strings.Ascii.

(** ** Dictionaries *)

Lemma dict_get_set d k v k' :
  dict_get (dict_set d k v) k'
    = if decide (k' = k) then Some v else dict_get d k'.
Proof.
  induction d as [|[k0 v0] d IH]; cbn.
  - repeat case_decide; congruence.
  - repeat (case_decide; cbn); try congruence.
Qed.

Lemma keys_set d k v :
  (dict_set d k v).*1 = if decide (k ∈ d.*1) then d.*1 else d.*1 ++ [k].
Proof.
  induction d as [|[k0 v0] d IH]; cbn [dict_set].
  - by rewrite decide_False by apply not_elem_of_nil.
  - rewrite fmap_cons. cbn [fst].
    destruct (decide (k0 = k)) as [->|Hk0].
    + by rewrite decide_True by (apply elem_of_cons; by left).
    + rewrite fmap_cons, IH. cbn [fst].
      destruct (decide (k ∈ d.*1)) as [Hin|Hnin].
      * by rewrite decide_True by (apply elem_of_cons; by right).
      * rewrite decide_False; [done|].
        rewrite elem_of_cons. by intros [?|?].
Qed.

Lemma add_child_get d t v k :
  dict_get (add_child d t v) k
    = if decide (k = t)
      then Some (from_option (λ old, VList (as_list old ++ [v])) v (dict_get d t))
      else dict_get d k.
Proof.
  unfold add_child. destruct (dict_get d t) as [old|]; cbn;
    by rewrite dict_get_set.
Qed.

Lemma add_child_keys d t v :
  (add_child d t v).*1 = if decide (t ∈ d.*1) then d.*1 else d.*1 ++ [t].
Proof.
  unfold add_child. destruct (dict_get d t) as [old|]; by rewrite keys_set.
Qed.

(** ** Grouping *)

Lemma group_snoc vs v :
  group (vs ++ [v])
    = Some (from_option (λ old, VList (as_list old ++ [v])) v (group vs)).
Proof.
  destruct vs as [|v1 [|v2 rest]]; cbn; [done|done|].
  by rewrite <-app_assoc.
Qed.

Lemma values_for_snoc k pairs t v :
  values_for k (pairs ++ [(t, v)])
    = if decide (t = k) then values_for k pairs ++ [v] else values_for k pairs.
Proof.
  unfold values_for. rewrite filter_app, fmap_app.
  rewrite filter_cons, filter_nil. cbn [fst].
  case_decide; cbn; [done|]. by rewrite app_nil_r.
Qed.

Lemma elem_of_first_seen x l : x ∈ first_seen l ↔ x ∈ l.
Proof.
  induction l as [|y l IH]; cbn; [done|].
  rewrite !elem_of_cons, list_elem_of_filter, IH.
  destruct (decide (x = y)); tauto.
Qed.

Lemma first_seen_snoc l x :
  first_seen (l ++ [x])
    = if decide (x ∈ l) then first_seen l else first_seen l ++ [x].
Proof.
  induction l as [|y l IH]; cbn [app first_seen].
  - by rewrite decide_False by apply not_elem_of_nil.
  - rewrite IH. destruct (decide (x ∈ y :: l)) as [Hin|Hnin].
    + destruct (decide (x ∈ l)) as [|Hnl]; [done|].
      assert (x = y) as -> by (apply elem_of_cons in Hin; tauto).
      rewrite filter_app, filter_cons, decide_False by (by intros []).
      by rewrite filter_nil, app_nil_r.
    + rewrite not_elem_of_cons in Hnin. destruct Hnin as [Hne Hnl].
      rewrite decide_False by done.
      rewrite filter_app, filter_cons, decide_True by done.
      by rewrite filter_nil.
Qed.

(** The dictionary built from the (tag, value) pairs of the children. *)
Lemma foldl_add_child pairs :
  let d := foldl (λ d tv, add_child d tv.1 tv.2) [] pairs in
  d.*1 = first_seen pairs.*1
  ∧ ∀ k, dict_get d k = group (values_for k pairs).
Proof.
  induction pairs as [|[t v] pairs IH] using rev_ind; [done|].
  cbv zeta in *. destruct IH as [IHk IHg].
  rewrite foldl_app. cbn [foldl fst snd]. split.
  - rewrite add_child_keys, IHk, fmap_app.
    change ([(t, v)].*1) with [t]. rewrite first_seen_snoc.
    destruct (decide (t ∈ pairs.*1)) as [Hin|Hnin].
    + by rewrite decide_True by by apply elem_of_first_seen.
    + by rewrite decide_False by by rewrite elem_of_first_seen.
  - intros k. rewrite add_child_get, values_for_snoc.
    destruct (decide (k = t)) as [->|Hne].
    + by rewrite decide_True, group_snoc, IHg by done.
    + by rewrite decide_False, IHg by done.
Qed.

Lemma loop_comprehension parse cs d :
  loop parse cs d
    = (vs ← Py.comprehension parse cs;
       Ok (VDict (foldl (λ d tv, add_child d tv.1 tv.2) d
                    (zip (tag_of <$> cs) vs)))).
Proof.
  revert d; induction cs as [|c cs IH]; intros d; [done|].
  cbn [loop Py.comprehension]. destruct (parse c) as [v|]; cbn; [|done].
  fold (loop parse). rewrite IH.
  by destruct (Py.comprehension parse cs).
Qed.

Lemma parse_xml_to_dict_children tag text c cs :
  parse_xml_to_dict (Element tag text (c :: cs))
    = loop parse_xml_to_dict (c :: cs) [].
Proof. reflexivity. Qed.

(** X20: an element with children is parsed to a dictionary whose keys
    are the distinct tags of the children in the order of their first
    occurrences; a tag carried by one child maps to the value of that
    child, a tag carried by several children maps to one list of their
    values in document order, which, when the first of these values is
    itself a list (a text such as ["1,2"]), is that list with the later
    values added at its end.  The text of the element itself is not
    read. *)
Theorem parse_children_grouped tag text c cs vs :
  Py.comprehension parse_xml_to_dict (c :: cs) = Ok vs →
  ∃ d, parse_xml_to_dict (Element tag text (c :: cs)) = Ok (VDict d)
       ∧ d.*1 = first_seen (tag_of <$> c :: cs)
       ∧ ∀ k, dict_get d k
              = group (values_for k (zip (tag_of <$> c :: cs) vs)).
Proof.
  intros Hvs. rewrite parse_xml_to_dict_children, loop_comprehension, Hvs.
  cbn [mbind result_bind]. eexists. split; [done|].
  destruct (foldl_add_child (zip (tag_of <$> c :: cs) vs)) as [Hk Hg].
  split; [|done]. rewrite Hk. f_equal. apply fst_zip.
  apply comprehension_Ok, Forall2_length in Hvs.
  rewrite length_fmap. lia.
Qed.

Lemma parse_children_grouped_witness :
  let children := [Element "rib" (Some "1,2") []; Element "span" (Some "3") [];
                   Element "rib" (Some "true") []] in
  ∃ d, parse_xml_to_dict (Element "wing" None children) = Ok (VDict d)
       ∧ d.*1 = ["rib"; "span"]
       ∧ dict_get d "rib"
         = Some (VList [VFloat (Qc_of_Z 1); VFloat (Qc_of_Z 2); VBool true]).
Proof.
  intros children.
  destruct (parse_children_grouped "wing" None
              (Element "rib" (Some "1,2") [])
              [Element "span" (Some "3") []; Element "rib" (Some "true") []]
              [VList [VFloat (Qc_of_Z 1); VFloat (Qc_of_Z 2)];
               VFloat (Qc_of_Z 3); VBool true])
    as (d & Hd & Hk & Hg); [by_evaluation|].
  exists d. split; [exact Hd|]. split; [exact Hk|]. exact (Hg "rib").
Defined.

(** ** Exceptions *)

Lemma element_Forall_ind (P : element → Prop) :
  (∀ tag text children,
      Forall P children → P (Element tag text children)) →
  ∀ e, P e.
Proof.
  intros step. fix IH 1. intros [tag text children]. apply step.
  revert children. fix IHl 1. intros [|c cs]; constructor.
  - apply IH.
  - apply IHl.
Qed.

Lemma unsigned_value_raises l err :
  unsigned_value l = Raise err → err = ValueError.
Proof.
  unfold unsigned_value. destruct (cut_at_point l) as [i f].
  case_match; [done|]. by intros [= <-].
Qed.

Lemma float_raises s err : float s = Raise err → err = ValueError.
Proof.
  unfold float. destruct (strip_spaces (chars s)) as [|x l].
  - by intros [= <-].
  - case_decide.
    + destruct (unsigned_value l) eqn:Hu; [done|].
      intros [= <-]. by apply unsigned_value_raises in Hu.
    + apply unsigned_value_raises.
Qed.

Lemma parse_type_raises text err :
  parse_type text = Raise err → err = ValueError.
Proof.
  destruct text as [text|]; [|done]. unfold parse_type.
  repeat case_match; try done.
  - destruct (float text) eqn:Hf; [done|].
    intros [= <-]. by apply float_raises in Hf.
  - destruct (Py.comprehension _ _) eqn:Hc; [done|].
    intros [= <-]. apply comprehension_raises, Exists_exists in Hc.
    destruct Hc as (part & _ & Hn).
    destruct (float part) eqn:Hf; [done|].
    injection Hn as <-. by apply float_raises in Hf.
Qed.

Lemma loop_raises parse cs d err :
  loop parse cs d = Raise err ↔ Py.comprehension parse cs = Raise err.
Proof.
  rewrite loop_comprehension.
  destruct (Py.comprehension parse cs); cbn [mbind result_bind].
  - split; intros [=].
  - split; intros [= ->]; reflexivity.
Qed.

(** X21: [parse_xml_to_dict] raises exactly when the text of some leaf
    of the element (a descendant without children, or the element itself
    when it has none) is one on which [parse_type] raises, and the
    exception is then a [ValueError]: nothing else is raised, and no text
    of an element that has children can make it raise. *)
Theorem parse_xml_to_dict_raises e err :
  parse_xml_to_dict e = Raise err
  ↔ err = ValueError
    ∧ Exists (λ text, parse_type text = Raise ValueError) (leaf_texts e).
Proof.
  revert err. induction e as [tag text children IH] using element_Forall_ind.
  intros err. destruct children as [|c cs].
  - cbn [parse_xml_to_dict leaf_texts]. split.
    + intros H. pose proof (parse_type_raises _ _ H) as ->.
      split; [done|]. by left.
    + intros [-> H]. apply Exists_cons in H as [H|H]; [done|].
      by apply Exists_nil in H.
  - rewrite parse_xml_to_dict_children, loop_raises.
    change (leaf_texts (Element tag text (c :: cs)))
      with (mjoin (leaf_texts <$> c :: cs)).
    rewrite Forall_forall in IH. split.
    + intros H. apply comprehension_raises, Exists_exists in H.
      destruct H as (x & Hx & Hraise).
      apply IH in Hraise as [-> Hleaf]; [|done]. split; [done|].
      apply Exists_exists in Hleaf as (t & Ht & Hraise).
      apply Exists_exists. exists t. split; [|done].
      apply list_elem_of_join. exists (leaf_texts x). split; [done|].
      apply list_elem_of_fmap. by exists x.
    + intros [-> H]. apply Exists_exists in H as (t & Ht & Hraise).
      apply list_elem_of_join in Ht as (ts & Ht & Hts).
      apply list_elem_of_fmap in Hts as (x & -> & Hx).
      assert (parse_xml_to_dict x = Raise ValueError) as Hraise'.
      { apply IH; [done|]. split; [done|].
        apply Exists_exists. by exists t. }
      destruct (comprehension_Exists_raises parse_xml_to_dict (c :: cs))
        as [e He].
      { apply Exists_exists. exists x. split; [done|]. by eexists. }
      rewrite He. f_equal.
      apply comprehension_raises, Exists_exists in He.
      destruct He as (y & Hy & Hraise'').
      by apply IH in Hraise'' as [-> _].
Qed.

(** ** Results *)

Lemma parse_type_not_dict text v :
  parse_type text = Ok v → is_dict v = false.
Proof.
  destruct text as [text|]; [|by intros [= <-]]. unfold parse_type.
  repeat case_match; try (by intros [= <-]).
  - destruct (float text); [|done]. by intros [= <-].
  - destruct (Py.comprehension _ _); [|done]. by intros [= <-].
Qed.

Lemma loop_dict parse cs d v : loop parse cs d = Ok v → is_dict v = true.
Proof.
  rewrite loop_comprehension.
  destruct (Py.comprehension parse cs); cbn; [|done]. by intros [= <-].
Qed.

(** X22: when [parse_xml_to_dict] returns, what it returns is a
    dictionary exactly when the element has children: for an element
    without children the result is the parsed text ([None], a boolean, a
    float, a list of floats or a string), never a dictionary. *)
Theorem dict_iff_children tag text children v :
  parse_xml_to_dict (Element tag text children) = Ok v →
  is_dict v = true ↔ children ≠ [].
Proof.
  destruct children as [|c cs].
  - cbn [parse_xml_to_dict]. intros H%parse_type_not_dict.
    rewrite H. by split.
  - rewrite parse_xml_to_dict_children. intros H%loop_dict.
    by rewrite H.
Qed.

Lemma dict_iff_children_witness :
  (is_dict (VFloat (Qc_of_Z 3)) = true ↔ [] ≠ @nil element)
  ∧ (is_dict (VDict [("span", VFloat (Qc_of_Z 3))]) = true
     ↔ [Element "span" (Some "3") []] ≠ []).
Proof.
  split.
  - apply (dict_iff_children "span" (Some "3") []). by_evaluation.
  - apply (dict_iff_children "wing" None [Element "span" (Some "3") []]).
    by_evaluation.
Defined.

(** ** Texts that pass [is_float] and are no numerals *)

Lemma chars_string l : chars (String.string_of_list_ascii l) = l.
Proof. apply String.list_ascii_of_string_of_list_ascii. Qed.

Lemma chars_remove_char c s :
  chars (remove_char c s) = filter (λ x, x ≠ c) (chars s).
Proof. apply chars_string. Qed.

Lemma chars_lower s : chars (lower s) = lower_char <$> chars s.
Proof. apply chars_string. Qed.

Lemma is_digit_range c :
  is_digit c = true ↔ (48 ≤ nat_of_ascii c ≤ 57)%nat.
Proof. unfold is_digit. by rewrite bool_decide_eq_true. Qed.

Lemma lower_char_digit c : is_digit c = true → lower_char c = c.
Proof.
  intros Hc%is_digit_range. unfold lower_char.
  rewrite !bool_decide_eq_false_2 by lia. done.
Qed.

Lemma digit_not_char c (x : ascii) :
  is_digit c = true → is_digit x = false → c ≠ x.
Proof. intros Hc Hx ->. congruence. Qed.

Lemma lower_not_word text first (word : string) x rest :
  head (chars text) = Some first → is_digit first = true →
  chars word = x :: rest → is_digit x = false →
  lower text ≠ word.
Proof.
  intros Hhead Hfirst Hword Hx Heq.
  apply (f_equal chars) in Heq. rewrite chars_lower, Hword in Heq.
  destruct (chars text) as [|c l]; [done|]. injection Hhead as ->.
  injection Heq as Heq _. rewrite lower_char_digit in Heq by done.
  by apply (digit_not_char first x).
Qed.

Lemma forallb_false_elem {A} (p : A → bool) c l :
  c ∈ l → p c = false → forallb p l = false.
Proof.
  intros Hin Hc. induction l as [|x l IH]; [by apply elem_of_nil in Hin|].
  cbn [forallb]. apply elem_of_cons in Hin as [<-|Hin].
  - by rewrite Hc.
  - rewrite IH by done. apply andb_false_r.
Qed.

Lemma forallb_elem {A} (p : A → bool) l :
  (∀ c, c ∈ l → p c = true) → forallb p l = true.
Proof.
  induction l as [|x l IH]; [done|]. intros H. cbn [forallb].
  rewrite H by (apply elem_of_cons; by left).
  apply IH. intros c Hc. apply H, elem_of_cons. by right.
Qed.

Lemma forallb_elem_inv {A} (p : A → bool) l c :
  forallb p l = true → c ∈ l → p c = true.
Proof.
  intros Hall Hc. destruct (p c) eqn:Hp; [done|].
  by rewrite (forallb_false_elem p c l) in Hall.
Qed.

Lemma plain_is_float text first :
  head (chars text) = Some first → is_digit first = true →
  forallb plain_char (chars text) = true →
  is_float text = true.
Proof.
  intros Hhead Hfirst Hplain. unfold is_float, isnumeric.
  apply andb_true_intro. split.
  - apply bool_decide_eq_true. intros Hempty.
    apply (f_equal chars) in Hempty. rewrite !chars_remove_char in Hempty.
    assert (first ∈ @nil ascii) as Hin; [|by apply elem_of_nil in Hin].
    change (chars "") with (@nil ascii) in Hempty. rewrite <-Hempty.
    rewrite !list_elem_of_filter.
    repeat split; try (by apply digit_not_char).
    destruct (chars text) as [|c l]; [done|]. injection Hhead as ->.
    apply elem_of_cons. by left.
  - apply forallb_elem. intros c. rewrite !chars_remove_char.
    rewrite !list_elem_of_filter. intros (Hm & Hp & Hs & Hc).
    apply (forallb_elem_inv _ _ _ Hplain) in Hc. unfold plain_char in Hc.
    unfold numeric_char. apply orb_true_iff in Hc as [->|Hc]; [done|].
    apply bool_decide_eq_true in Hc.
    rewrite !elem_of_cons, elem_of_nil in Hc. tauto.
Qed.

Lemma drop_spaces_digit c l :
  is_digit c = true → drop_spaces (c :: l) = c :: l.
Proof.
  intros Hc. cbn [drop_spaces].
  by rewrite decide_False by by apply digit_not_char.
Qed.

Lemma strip_spaces_digits first final l :
  head l = Some first → is_digit first = true →
  last l = Some final → is_digit final = true →
  strip_spaces l = l.
Proof.
  intros Hhead Hfirst Hlast Hfinal. unfold strip_spaces.
  destruct l as [|c l]; [done|]. injection Hhead as ->.
  rewrite drop_spaces_digit by done.
  apply last_Some in Hlast as [l' Hl']. rewrite Hl', reverse_snoc.
  rewrite drop_spaces_digit by done.
  by rewrite <-reverse_snoc, reverse_involutive.
Qed.

Lemma cut_at_point_parts l i f :
  cut_at_point l = (i, f) →
  ("."%char ∉ i) ∧ l = i ++ from_option (λ f, "."%char :: f) [] f.
Proof.
  revert i f. induction l as [|x l IH]; intros i f; cbn [cut_at_point].
  - intros [= <- <-]. split; [apply not_elem_of_nil|done].
  - destruct (decide (x = "."%char)) as [->|Hx].
    + intros [= <- <-]. split; [apply not_elem_of_nil|done].
    + destruct (cut_at_point l) as [i' f']. intros [= <- <-].
      destruct (IH i' f' eq_refl) as [Hi ->].
      split; [|done]. rewrite not_elem_of_cons. by split.
Qed.

Lemma count_not_elem c l : c ∉ l → count c l = 0%nat.
Proof.
  intros Hc. unfold count. induction l as [|x l IH]; [done|].
  apply not_elem_of_cons in Hc as [Hx Hl].
  rewrite filter_cons, decide_False by done. by apply IH.
Qed.

Lemma count_app c l k : count c (l ++ k) = (count c l + count c k)%nat.
Proof. unfold count. by rewrite filter_app, length_app. Qed.

Lemma count_cons_eq c l : count c (c :: l) = S (count c l).
Proof. unfold count. by rewrite filter_cons, decide_True by done. Qed.

Lemma count_pos_elem c l : (0 < count c l)%nat → c ∈ l.
Proof.
  intros Hc. destruct (decide (c ∈ l)) as [|Hn]; [done|].
  rewrite count_not_elem in Hc by done. lia.
Qed.

Lemma unsigned_value_malformed l :
  "-"%char ∈ l ∨ " "%char ∈ l ∨ (2 ≤ count "." l)%nat →
  unsigned_value l = Raise ValueError.
Proof.
  intros Hbad. unfold unsigned_value.
  destruct (cut_at_point l) as [i f] eqn:Hcut.
  apply cut_at_point_parts in Hcut as [Hi Hl].
  assert (∃ c, (c ∈ i ∨ c ∈ default [] f) ∧ is_digit c = false)
    as (c & Hc & Hdigit).
  { destruct f as [f|]; cbn [from_option id] in *.
    - destruct Hbad as [Hbad|[Hbad|Hbad]].
      + exists "-"%char. split; [|done]. rewrite Hl in Hbad.
        rewrite elem_of_app, elem_of_cons in Hbad.
        destruct Hbad as [|[|]]; [by left|done|by right].
      + exists " "%char. split; [|done]. rewrite Hl in Hbad.
        rewrite elem_of_app, elem_of_cons in Hbad.
        destruct Hbad as [|[|]]; [by left|done|by right].
      + exists "."%char. split; [|done]. right.
        rewrite Hl, count_app, count_cons_eq, count_not_elem in Hbad by done.
        apply count_pos_elem. lia.
    - rewrite app_nil_r in Hl. subst i.
      destruct Hbad as [Hbad|[Hbad|Hbad]].
      + exists "-"%char. split; [by left|done].
      + exists " "%char. split; [by left|done].
      + rewrite count_not_elem in Hbad by done. lia. }
  destruct Hc as [Hc|Hc].
  - by rewrite (forallb_false_elem is_digit c i).
  - rewrite (forallb_false_elem is_digit c (default [] f)) by done.
    by rewrite andb_false_r.
Qed.

(** X23: [is_float] lets through texts that [float] does not read, and
    [parse_type] then raises [ValueError] instead of returning the text:
    this is so for every text that starts and ends with a digit, is made
    of digits, ["-"], [" "] and ["."] only, and has a ["-"] or a [" "]
    or more than one ["."] in it, such as a date [2024-01-15], a range
    [10-20], a grouped number [1 000] or a version [1.2.3]. *)
Theorem malformed_numeral_raises text first final :
  head (chars text) = Some first → is_digit first = true →
  last (chars text) = Some final → is_digit final = true →
  forallb plain_char (chars text) = true →
  "-"%char ∈ chars text ∨ " "%char ∈ chars text
    ∨ (2 ≤ count "." (chars text))%nat →
  parse_type (Some text) = Raise ValueError.
Proof.
  intros Hhead Hfirst Hlast Hfinal Hplain Hbad. unfold parse_type.
  rewrite decide_False
    by by apply (lower_not_word text first "true" "t" ["r"; "u"; "e"]%char).
  rewrite decide_False
    by by apply (lower_not_word text first "false" "f"
                   ["a"; "l"; "s"; "e"]%char).
  rewrite (plain_is_float text first) by done.
  unfold float. rewrite (strip_spaces_digits first final) by done.
  destruct (chars text) as [|c l] eqn:Hchars; [done|].
  injection Hhead as ->.
  rewrite decide_False by by apply digit_not_char.
  by rewrite unsigned_value_malformed.
Qed.

Lemma malformed_numeral_raises_witness :
  parse_type (Some "2024-01-15") = Raise ValueError
  ∧ parse_type (Some "1.2.3") = Raise ValueError.
Proof.
  split.
  - apply (malformed_numeral_raises "2024-01-15" "2" "5")%char;
      [reflexivity..|]. left. by_evaluation.
  - apply (malformed_numeral_raises "1.2.3" "1" "3")%char;
      [reflexivity..|]. right. right. vm_compute. lia.
Defined.
End XmlFacts.
